(** * 21Cloud Dashboard: the data normalisation and scoring pipeline

    A shallow embedding of the JavaScript sources (sheets.js, portfolio.js,
    exposure.js, config.js, screener.js, market.js) and the properties of
    the specification proved, or refuted, against it.

    Conventions of the embedding.
    - A JavaScript string is a [string]: one [ascii] per code unit, so the
      model covers text whose code units lie below 256.
    - A JavaScript number is a [number]: NaN, the two infinities, or an exact
      rational.  Arithmetic is exact; the rounding error of binary64,
      overflow and the sign of zero are not represented.
    - An object used as a record or dictionary is a [gmap string _] of its
      own properties; a property read yields an [option], [None] standing
      for [undefined].  Where the code reads such an object under a name
      that comes from the data (a header, a ticker, a key of another
      record), the members it inherits from [Object.prototype] are
      written out ([inherited]); the names the code itself spells
      (Ticker, Sector, ...) are none of those.
    - [Array.prototype.sort] is a stable insertion sort: for a comparator
      that is consistent it is the order every conforming sort returns.
    - Host services whose result ECMAScript leaves to the implementation
      (generic date parsing, locale collation, the shortest decimal form of
      a non-integral number) are parameters of the functions that call
      them. *)

From Stdlib Require Import ZArith QArith Qround Qminmax Lia Lqa Ascii String List.
From Stdlib Require Import DecimalString Sorted.
From stdpp Require Import base option list gmap strings.

Local Open Scope string_scope.
Local Open Scope list_scope.
Local Open Scope Z_scope.

(** ** The JavaScript values and built-ins the sources rely on *)

Module JS.

Definition isSome {A : Type} (o : option A) : bool :=
  match o with Some _ => true | None => false end.

(** *** Characters and strings *)

Definition code (c : ascii) : Z := Z.of_N (N_of_ascii c).

Definition dquote : ascii := ascii_of_N 34.
Definition LF : ascii := ascii_of_N 10.
Definition CR : ascii := ascii_of_N 13.

Definition ceq (a b : ascii) : bool := Ascii.eqb a b.

Definition isDigit (c : ascii) : bool := (48 <=? code c) && (code c <=? 57).

Definition digitVal (c : ascii) : Z := code c - 48.

(** The value of [c] as a digit of radix 16, if it is one. *)
Definition hexVal (c : ascii) : option Z :=
  let n := code c in
  if (48 <=? n) && (n <=? 57) then Some (n - 48)
  else if (97 <=? n) && (n <=? 102) then Some (n - 87)
  else if (65 <=? n) && (n <=? 70) then Some (n - 55)
  else None.

(** WhiteSpace and LineTerminator code units below 256: TAB, LF, VT, FF,
    CR, SP and NBSP. *)
Definition isSpace (c : ascii) : bool :=
  let n := code c in ((9 <=? n) && (n <=? 13)) || (n =? 32) || (n =? 160).

(** Line terminators below 256, which the regular-expression dot rejects. *)
Definition isLineTerminator (c : ascii) : bool :=
  let n := code c in (n =? 10) || (n =? 13).

Definition toLower (c : ascii) : ascii :=
  let n := code c in
  if (65 <=? n) && (n <=? 90) then ascii_of_N (Z.to_N (n + 32)) else c.

Fixpoint trimStart (s : string) : string :=
  match s with
  | String c r => if isSpace c then trimStart r else s
  | EmptyString => s
  end.

(** [trimEnd] keeps a character when it is not a space or when something
    is left after it. *)
Fixpoint trimEnd (s : string) : string :=
  match s with
  | String c r =>
      match trimEnd r with
      | EmptyString => if isSpace c then EmptyString else String c EmptyString
      | r' => String c r'
      end
  | EmptyString => EmptyString
  end.

(** [String.prototype.trim]. *)
Definition trim (s : string) : string := trimEnd (trimStart s).

(** [s] starts with [p]; on success the rest of [s] is returned. *)
Fixpoint stripPrefix (p s : string) : option string :=
  match p, s with
  | EmptyString, _ => Some s
  | String a p', String b s' => if ceq a b then stripPrefix p' s' else None
  | String _ _, EmptyString => None
  end.

(** The same, ignoring the case of ASCII letters. *)
Fixpoint stripPrefixCI (p s : string) : option string :=
  match p, s with
  | EmptyString, _ => Some s
  | String a p', String b s' =>
      if ceq (toLower a) (toLower b) then stripPrefixCI p' s' else None
  | String _ _, EmptyString => None
  end.

Definition startsWith (p s : string) : bool := isSome (stripPrefix p s).

(** [needle] occurs in [s], ignoring case: the test of an unanchored
    literal pattern with the [i] flag. *)
Fixpoint includesCI (needle s : string) : bool :=
  isSome (stripPrefixCI needle s) ||
  match s with
  | String _ r => includesCI needle r
  | EmptyString => false
  end.

(** [String.prototype.split] on a one-character separator. *)
Fixpoint splitOn_go (sep : ascii) (s cur : string) : list string :=
  match s with
  | EmptyString => [cur]
  | String c r =>
      if ceq c sep then cur :: splitOn_go sep r EmptyString
      else splitOn_go sep r (cur +:+ String c EmptyString)
  end.

Definition splitOn (sep : ascii) (s : string) : list string :=
  splitOn_go sep s EmptyString.

(** *** Numbers *)

Inductive number : Type :=
  | NaN
  | NInf
  | Fin (q : Q)
  | PInf.

Definition ofZ (z : Z) : number := Fin (inject_Z z).

Definition Qltb (a b : Q) : bool :=
  match (a ?= b)%Q with Lt => true | _ => false end.

Definition Qleb (a b : Q) : bool :=
  match (a ?= b)%Q with Gt => false | _ => true end.

Definition Qeqb (a b : Q) : bool :=
  match (a ?= b)%Q with Eq => true | _ => false end.

(** [a < b] *)
Definition nlt (a b : number) : bool :=
  match a, b with
  | NaN, _ | _, NaN => false
  | _, NInf => false
  | NInf, _ => true
  | PInf, _ => false
  | Fin _, PInf => true
  | Fin x, Fin y => Qltb x y
  end.

(** [a <= b] *)
Definition nle (a b : number) : bool :=
  match a, b with
  | NaN, _ | _, NaN => false
  | NInf, _ => true
  | _, PInf => true
  | _, NInf => false
  | PInf, _ => false
  | Fin x, Fin y => Qleb x y
  end.

(** [a > b] and [a >= b] *)
Definition ngt (a b : number) : bool := nlt b a.
Definition nge (a b : number) : bool := nle b a.

(** [a === b] on numbers *)
Definition neqb (a b : number) : bool :=
  match a, b with
  | NInf, NInf | PInf, PInf => true
  | Fin x, Fin y => Qeqb x y
  | _, _ => false
  end.

Definition isNaN (a : number) : bool :=
  match a with NaN => true | _ => false end.

(** ToBoolean on a number: NaN and zero are falsy. *)
Definition truthyNum (a : number) : bool :=
  match a with
  | NaN => false
  | Fin q => negb (Qeqb q 0)
  | _ => true
  end.

Definition nneg (a : number) : number :=
  match a with
  | NaN => NaN
  | NInf => PInf
  | PInf => NInf
  | Fin q => Fin (Qred (- q))
  end.

Definition nadd (a b : number) : number :=
  match a, b with
  | NaN, _ | _, NaN => NaN
  | NInf, PInf | PInf, NInf => NaN
  | NInf, _ | _, NInf => NInf
  | PInf, _ | _, PInf => PInf
  | Fin x, Fin y => Fin (Qred (x + y))
  end.

Definition nsub (a b : number) : number := nadd a (nneg b).

(** The sign of an infinity times a finite factor. *)
Definition infTimes (positive : bool) (q : Q) : number :=
  if Qeqb q 0 then NaN
  else if xorb positive (Qltb q 0) then PInf else NInf.

Definition nmul (a b : number) : number :=
  match a, b with
  | NaN, _ | _, NaN => NaN
  | Fin x, Fin y => Fin (Qred (x * y))
  | PInf, Fin y | Fin y, PInf => infTimes true y
  | NInf, Fin y | Fin y, NInf => infTimes false y
  | PInf, PInf | NInf, NInf => PInf
  | PInf, NInf | NInf, PInf => NInf
  end.

Definition ndiv (a b : number) : number :=
  match a, b with
  | NaN, _ | _, NaN => NaN
  | Fin x, Fin y =>
      if Qeqb y 0 then
        (if Qeqb x 0 then NaN else if Qltb x 0 then NInf else PInf)
      else Fin (Qred (x / y))
  | Fin _, _ => Fin 0
  | PInf, Fin y => if Qltb y 0 then NInf else PInf
  | NInf, Fin y => if Qltb y 0 then PInf else NInf
  | _, _ => NaN
  end.

(** [Math.round]: the integer nearest to the argument, ties towards
    plus infinity. *)
Definition mathRound (a : number) : number :=
  match a with
  | Fin q => ofZ (Qfloor (q + (1 # 2)))
  | _ => a
  end.

(** [Math.min] of two numbers. *)
Definition mathMin (a b : number) : number :=
  match a, b with
  | NaN, _ | _, NaN => NaN
  | _, _ => if nle a b then a else b
  end.

(** [x || d] on numbers. *)
Definition orElse (x d : number) : number := if truthyNum x then x else d.

(** *** Reading numbers from text *)

(** The longest run of digits of the given radix at the front of [s]: its
    value (continuing [acc]), how many digits were read (continuing [n]),
    and what follows. *)
Fixpoint readDigits (radix : Z) (s : string) (acc n : Z) : Z * Z * string :=
  match s with
  | String c r =>
      match hexVal c with
      | Some d =>
          if d <? radix then readDigits radix r (radix * acc + d) (n + 1)
          else (acc, n, s)
      | None => (acc, n, s)
      end
  | EmptyString => (acc, n, s)
  end.

Definition isCharOf (a b c : ascii) : bool := ceq c a || ceq c b.

(** The exponent part of a decimal literal at the front of [s], if a
    complete one is there: its value and what follows. *)
Definition readExponent (s : string) : Z * string :=
  match s with
  | String c r =>
      if isCharOf "e" "E" c then
        let '(sgn, r1) :=
          match r with
          | String "+" r' => (1, r')
          | String "-" r' => (-1, r')
          | _ => (1, r)
          end in
        let '(ev, ne, r2) := readDigits 10 r1 0 0 in
        if ne =? 0 then (0, s) else (sgn * ev, r2)
      else (0, s)
  | EmptyString => (0, s)
  end.

(** The longest prefix of [s] that is an unsigned StrDecimalLiteral:
    [Infinity], or digits with an optional fraction and exponent. *)
Definition strUnsignedDecimal (s : string) : option (number * string) :=
  match stripPrefix "Infinity" s with
  | Some r => Some (PInf, r)
  | None =>
      let '(ip, ni, r1) := readDigits 10 s 0 0 in
      let '(fp, nf, r2) :=
        match r1 with
        | String "." r =>
            let '(fp, nf, r') := readDigits 10 r 0 0 in
            if (ni =? 0) && (nf =? 0) then (0, 0, r1) else (fp, nf, r')
        | _ => (0, 0, r1)
        end in
      if (ni =? 0) && (nf =? 0) then None
      else
        let '(e, r3) := readExponent r2 in
        Some (Fin (Qred ((inject_Z ip + inject_Z fp / Qpower 10 nf)
                         * Qpower 10 e)), r3)
  end.

(** The same with an optional sign. *)
Definition strDecimalPrefix (s : string) : option (number * string) :=
  match s with
  | String "+" r => strUnsignedDecimal r
  | String "-" r =>
      match strUnsignedDecimal r with
      | Some (v, r') => Some (nneg v, r')
      | None => None
      end
  | _ => strUnsignedDecimal s
  end.

(** [parseFloat] on a string: the longest decimal prefix after leading
    white space, NaN when there is none. *)
Definition parseFloatStr (s : string) : number :=
  match strDecimalPrefix (trimStart s) with
  | Some (v, _) => v
  | None => NaN
  end.

(** A binary, octal or hexadecimal integer literal spanning all of [s]. *)
Definition nonDecimalLiteral (s : string) : option number :=
  match s with
  | String "0" (String x r) =>
      let radix :=
        if isCharOf "x" "X" x then Some 16
        else if isCharOf "o" "O" x then Some 8
        else if isCharOf "b" "B" x then Some 2
        else None in
      match radix with
      | Some b =>
          match readDigits b r 0 0 with
          | (v, n, EmptyString) => if n =? 0 then None else Some (ofZ v)
          | _ => None
          end
      | None => None
      end
  | _ => None
  end.

(** [Number(s)] on a string: the whole trimmed text must be a numeric
    literal; the empty text is zero. *)
Definition toNumberStr (s : string) : number :=
  match trim s with
  | EmptyString => Fin 0
  | t =>
      match strDecimalPrefix t with
      | Some (v, EmptyString) => v
      | _ =>
          match nonDecimalLiteral t with
          | Some v => v
          | None => NaN
          end
      end
  end.

(** [parseInt(s)] with no radix argument: an optional sign, the prefix
    [0x] for radix 16, then the longest run of digits. *)
Definition parseIntStr (s : string) : number :=
  let t := trimStart s in
  let '(negative, t1) :=
    match t with
    | String c r =>
        if ceq c "-" then (true, r)
        else if ceq c "+" then (false, r) else (false, t)
    | EmptyString => (false, t)
    end in
  let '(radix, t2) :=
    match t1 with
    | String c (String x r) =>
        if ceq c "0" && isCharOf "x" "X" x then (16, r) else (10, t1)
    | _ => (10, t1)
    end in
  let '(v, n, _) := readDigits radix t2 0 0 in
  if n =? 0 then NaN else ofZ (if negative then - v else v).

(** *** Printing numbers *)

Definition showZ (z : Z) : string := NilZero.string_of_int (Z.to_int z).

(** Integers of magnitude up to 2^53 are exactly representable and print
    as their decimal digits. *)
Definition safeInteger (q : Q) : option Z :=
  let r := Qred q in
  if (Zpos (Qden r) =? 1) && (Z.abs (Qnum r) <=? 2 ^ 53) then Some (Qnum r)
  else None.

(** [String(n)] for a number.  [hostShow] is the host's rendering of the
    finite numbers that are not such integers. *)
Definition numToString (hostShow : Q -> string) (n : number) : string :=
  match n with
  | NaN => "NaN"
  | PInf => "Infinity"
  | NInf => "-Infinity"
  | Fin q =>
      match safeInteger q with
      | Some z => showZ z
      | None => hostShow q
      end
  end.

(** *** Values held in records *)

(** A cell of a parsed sheet: [null], a number or a string.  A property
    read is an [option JsVal], [None] being [undefined]. *)
Inductive JsVal : Type :=
  | JNull
  | JNum (n : number)
  | JStr (s : string).

Abbreviation Row := (gmap string JsVal).

(** ToBoolean of a property read. *)
Definition truthy (v : option JsVal) : bool :=
  match v with
  | None | Some JNull => false
  | Some (JNum n) => truthyNum n
  | Some (JStr s) => negb (String.eqb s "")
  end.

(** [v == null]: undefined or null. *)
Definition isNullish (v : option JsVal) : bool :=
  match v with
  | None | Some JNull => true
  | _ => false
  end.

(** [a ?? b] *)
Definition coalesce (a b : option JsVal) : option JsVal :=
  if isNullish a then b else a.

(** [String(v)] *)
Definition toStr (hostShow : Q -> string) (v : option JsVal) : string :=
  match v with
  | None => "undefined"
  | Some JNull => "null"
  | Some (JNum n) => numToString hostShow n
  | Some (JStr s) => s
  end.

(** [parseFloat(v)]: the argument is first converted to a string; the
    text of a number reads back as that number, and neither [null] nor
    [undefined] starts with a numeral. *)
Definition parseFloat (v : option JsVal) : number :=
  match v with
  | None | Some JNull => NaN
  | Some (JNum n) => n
  | Some (JStr s) => parseFloatStr s
  end.

(** *** Objects made by a literal

    An object written [{}] inherits the members of [Object.prototype].
    A read under one of their names, on an object without an own property
    of that name, yields the inherited member: a function, and under
    [__proto__] the prototype object.  Such a value is truthy, is neither
    [null] nor the empty string, and converts to the number NaN.  An
    assignment under one of the names creates an own property, except
    under [__proto__], whose setter ignores a value that is not an
    object. *)
Definition prototypeNames : list string :=
  ["constructor"; "hasOwnProperty"; "isPrototypeOf"; "propertyIsEnumerable";
   "toLocaleString"; "toString"; "valueOf"; "__proto__";
   "__defineGetter__"; "__defineSetter__"; "__lookupGetter__";
   "__lookupSetter__"].

Definition inherited (key : string) : bool :=
  existsb (String.eqb key) prototypeNames.

End JS.

Import JS.

(** ** config.js: weights and thresholds *)

Module Config.

Record Weights : Type := {
  ema21 : number; sma50 : number; toraku : number;
  nhNl : number; advPct : number; sectorBreadth : number }.

Record TorakuSteps : Type := {
  optimal : number; warm : number; cool : number;
  overheat : number; extreme : number; cold : number }.

Record Toraku : Type := {
  overheatDanger : number; overheatWarn : number;
  optimalHigh : number; optimalLow : number;
  warmLow : number; coolLow : number;
  steps : TorakuSteps }.

Record NhBonus : Type := { threshold100 : number; threshold50 : number }.

Record AdvStep : Type := { min : number; pts : number }.

Record Exposure : Type := {
  weights : Weights;
  insideBand : number;
  torakuCfg : Toraku;
  nhBonus : NhBonus;
  advPctSteps : list AdvStep;
  sectorB80Threshold : number;
  sectorB80Bonus : number }.

Definition EXPOSURE : Exposure := {|
  weights := {| ema21 := ofZ 35; sma50 := ofZ 10; toraku := ofZ 17;
                nhNl := ofZ 13; advPct := ofZ 10; sectorBreadth := ofZ 15 |};
  insideBand := ofZ 1;
  torakuCfg := {|
    overheatDanger := ofZ 140; overheatWarn := ofZ 120;
    optimalHigh := ofZ 120; optimalLow := ofZ 100;
    warmLow := ofZ 80; coolLow := ofZ 70;
    steps := {| optimal := ofZ 17; warm := ofZ 11; cool := ofZ 6;
                overheat := ofZ 3; extreme := ofZ 0; cold := ofZ 2 |} |};
  nhBonus := {| threshold100 := ofZ 3; threshold50 := ofZ 2 |};
  advPctSteps := [ {| min := ofZ 55; pts := ofZ 10 |};
                   {| min := ofZ 45; pts := ofZ 7 |};
                   {| min := ofZ 35; pts := ofZ 4 |} ];
  sectorB80Threshold := ofZ 20;
  sectorB80Bonus := ofZ 5 |}.

Record PhaseRule : Type := { rs21Min : number; erPositive : bool }.

Record Phase : Type := {
  strong : PhaseRule; improving : PhaseRule; stalling : PhaseRule }.

Definition PHASE : Phase := {|
  strong := {| rs21Min := ofZ 50; erPositive := true |};
  improving := {| rs21Min := ofZ 30; erPositive := true |};
  stalling := {| rs21Min := ofZ 30; erPositive := false |} |}.

End Config.

(** ** exposure.js v1.2: the exposure score and the sector phase *)

Module Exposure.

Import Config.

(** The breadth summary read by [calcExposure].  A field that is absent
    behaves as NaN does: [x || 0] replaces both by zero. *)
Record Breadth : Type := {
  toraku25 : number; newHigh : number; newLow : number; advPct : number }.

Inductive EmaPos : Type := above | inside | below.

Record Enriched : Type := { idxRow : Row; emaPos : EmaPos; abv50 : bool }.

Record Component : Type := {
  name : string; pts : number; max : number; warningLabel : option string }.

Record Result : Type := {
  score : number; label : string; components : list Component;
  killSwitch : bool; raw : number }.

(** [Math.round(x * 10) / 10] *)
Definition round1 (x : number) : number := ndiv (mathRound (nmul x (ofZ 10))) (ofZ 10).

(** [derivePhase(sector)] *)
Definition derivePhase (sector : Row) : Z :=
  let rs21 := orElse (parseFloat (sector !! "RS_21")) (ofZ 50) in
  let er1w := orElse (parseFloat (sector !! "ER_1W")) (ofZ 0) in
  if nge rs21 (rs21Min (strong PHASE)) && ngt er1w (ofZ 0) then 4
  else if ngt er1w (ofZ 0) && nge rs21 (rs21Min (improving PHASE)) then 3
  else if nle er1w (ofZ 0) && nge rs21 (rs21Min (stalling PHASE)) then 2
  else 1.

(** [derivePhase] of the earlier js/exposure.js, with its thresholds
    written in place. *)
Definition derivePhase_v1 (sector : Row) : Z :=
  let rs21 := orElse (parseFloat (sector !! "RS_21")) (ofZ 50) in
  let er1w := orElse (parseFloat (sector !! "ER_1W")) (ofZ 0) in
  if nge rs21 (ofZ 50) && ngt er1w (ofZ 0) then 4
  else if ngt er1w (ofZ 0) && nge rs21 (ofZ 30) then 3
  else if nle er1w (ofZ 0) && nge rs21 (ofZ 30) then 2
  else 1.

Definition enrich (band : number) (idx : Row) : Enriched :=
  let d21 := orElse (parseFloat (idx !! "Dist_21EMA%")) (ofZ 0) in
  let d50 := orElse (parseFloat (idx !! "Dist_50MA%")) (ofZ 0) in
  {| idxRow := idx;
     emaPos := if ngt d21 band then above
               else if ngt d21 (nneg band) then inside else below;
     abv50 := ngt d50 (ofZ 0) |}.

(** Factor 1, Index x 21EMA, before the final rounding. *)
Definition sumEma21 (perIdx halfIdx : number) (enriched : list Enriched) : number :=
  fold_left (fun s1 idx =>
               match emaPos idx with
               | above => nadd s1 perIdx
               | inside => nadd s1 halfIdx
               | below => s1
               end) enriched (ofZ 0).

(** Factor 2, Index x 50SMA, before the final rounding. *)
Definition sumSma50 (perIdx : number) (enriched : list Enriched) : number :=
  fold_left (fun s2 idx => if abv50 idx then nadd s2 perIdx else s2)
            enriched (ofZ 0).

(** Factor 3, the 25-day advance/decline ratio. *)
Definition torakuPts (TR : Toraku) (t : number) : number :=
  if ngt t (overheatDanger TR) then extreme (steps TR)
  else if ngt t (overheatWarn TR) then overheat (steps TR)
  else if nge t (optimalLow TR) then optimal (steps TR)
  else if nge t (warmLow TR) then warm (steps TR)
  else if nge t (coolLow TR) then cool (steps TR)
  else cold (steps TR).

Definition torakuWarning (TR : Toraku) (t : number) : option string :=
  if ngt t (overheatWarn TR)
  then Some (if ngt t (overheatDanger TR) then "危険過熱" else "過熱警戒")
  else None.

(** Factor 4, new highs against new lows, from the two counts after
    their [|| 0]. *)
Definition nhNlPts (E : Exposure) (nh nl : number) : number :=
  let W := weights E in
  let nhBase := nsub (nhNl W) (threshold100 (nhBonus E)) in
  let s4 :=
    if ngt (nadd nh nl) (ofZ 0)
    then ndiv (mathRound (nmul (nmul (ndiv nh (nadd nh nl)) nhBase) (ofZ 10)))
              (ofZ 10)
    else ofZ 0 in
  let s4 :=
    if nge nh (ofZ 100) then nadd s4 (threshold100 (nhBonus E))
    else if nge nh (ofZ 50) then nadd s4 (threshold50 (nhBonus E))
    else s4 in
  mathMin (nhNl W) (round1 s4).

(** Factor 5: the points of the first step whose minimum is reached. *)
Fixpoint advPts (steps : list AdvStep) (ap : number) : number :=
  match steps with
  | step :: rest =>
      if nge ap (min step) then Config.pts step else advPts rest ap
  | [] => ofZ 0
  end.

(** The loop over the valid sectors: the Phase 4 count and the sum of
    the band values. *)
Definition sectorStep (acc : nat * number) (s : Row) : nat * number :=
  let '(phase4Count, b80Sum) := acc in
  let phase := derivePhase s in
  (if phase =? 4 then S phase4Count else phase4Count,
   nadd b80Sum (orElse (parseFloat (s !! "Band80_Pct")) (ofZ 0))).

Definition sectorTotals (validSectors : list Row) : nat * number :=
  fold_left sectorStep validSectors (O, ofZ 0).

Definition ofNat (n : nat) : number := ofZ (Z.of_nat n).

(** Factor 6, sector breadth. *)
Definition sectorPts (E : Exposure) (sectors : list Row) : number :=
  let W := weights E in
  let validSectors := List.filter (fun s => truthy (s !! "Sector")) sectors in
  let '(phase4Count, b80Sum) := sectorTotals validSectors in
  let len := length validSectors in
  let phase4Ratio :=
    if (0 <? Z.of_nat len) then ndiv (ofNat phase4Count) (ofNat len) else ofZ 0 in
  let b80Avg :=
    if (0 <? Z.of_nat len) then ndiv b80Sum (ofNat len) else ofZ 0 in
  let sbBase := nsub (sectorBreadth W) (sectorB80Bonus E) in
  let s6 := round1 (nmul phase4Ratio sbBase) in
  let s6 := if nge b80Avg (sectorB80Threshold E)
            then nadd s6 (sectorB80Bonus E) else s6 in
  mathMin (sectorBreadth W) s6.

Definition labelOf (killSwitch : bool) (score : number) : string :=
  if killSwitch then "RISK OFF"
  else if nge score (ofZ 80) then "AGGRESSIVE"
  else if nge score (ofZ 60) then "BULLISH"
  else if nge score (ofZ 40) then "CAUTIOUS"
  else if nge score (ofZ 20) then "DEFENSIVE"
  else "RISK OFF".

(** [calcExposure(indices, breadth, sectors)] over a configuration. *)
Definition calcExposureWith (E : Exposure)
    (indices : list Row) (breadth : Breadth) (sectors : list Row) : Result :=
  let W := weights E in
  let band := insideBand E in
  let enriched := List.map (enrich band) indices in
  (* 1: Index x 21EMA *)
  let perIdx1 := ndiv (mathRound (nmul (ndiv (ema21 W) (ofZ 3)) (ofZ 100))) (ofZ 100) in
  let halfIdx1 := ndiv (mathRound (nmul (ndiv (ema21 W) (ofZ 6)) (ofZ 100))) (ofZ 100) in
  let s1 := round1 (sumEma21 perIdx1 halfIdx1 enriched) in
  let killSwitch := neqb s1 (ofZ 0) in
  let c1 := {| name := "Index×21EMA"; pts := s1; max := ema21 W;
               warningLabel := None |} in
  (* 2: Index x 50SMA *)
  let perIdx2 := ndiv (mathRound (nmul (ndiv (sma50 W) (ofZ 3)) (ofZ 100))) (ofZ 100) in
  let s2 := round1 (sumSma50 perIdx2 enriched) in
  let c2 := {| name := "Index×50SMA"; pts := s2; max := sma50 W;
               warningLabel := None |} in
  (* 3: advance/decline ratio *)
  let TR := torakuCfg E in
  let t := orElse (toraku25 breadth) (ofZ 0) in
  let c3 := {| name := "騰落レシオ(25)"; pts := torakuPts TR t; max := toraku W;
               warningLabel := torakuWarning TR t |} in
  (* 4: NH/NL *)
  let nh := orElse (newHigh breadth) (ofZ 0) in
  let nl := orElse (newLow breadth) (ofZ 0) in
  let c4 := {| name := "NH/NL比率"; pts := nhNlPts E nh nl; max := nhNl W;
               warningLabel := None |} in
  (* 5: advancing issues *)
  let ap := orElse (advPct breadth) (ofZ 0) in
  let c5 := {| name := "値上がり率"; pts := advPts (advPctSteps E) ap;
               max := Config.advPct W; warningLabel := None |} in
  (* 6: sector breadth *)
  let c6 := {| name := "Sector Breadth"; pts := sectorPts E sectors;
               max := sectorBreadth W; warningLabel := None |} in
  let components := [c1; c2; c3; c4; c5; c6] in
  let raw := fold_left (fun sum c => nadd sum (pts c)) components (ofZ 0) in
  let score := if killSwitch then ofZ 0 else round1 (mathMin (ofZ 100) raw) in
  {| score := score; label := labelOf killSwitch score;
     components := components; killSwitch := killSwitch; raw := round1 raw |}.

Definition calcExposure : list Row -> Breadth -> list Row -> Result :=
  calcExposureWith EXPOSURE.

End Exposure.

(** ** Regular-expression tests used by the sources *)

Module Pattern.

(** Exactly [n] digits at the front of [s]; what follows them. *)
Fixpoint digitsN (n : nat) (s : string) : option string :=
  match n, s with
  | O, _ => Some s
  | S n', String c r => if isDigit c then digitsN n' r else None
  | S _, EmptyString => None
  end.

(** One or two digits and then the character [sep]; what follows [sep]. *)
Definition digits12Then (sep : ascii) (s : string) : option string :=
  match s with
  | String a (String b r) =>
      if isDigit a then
        if ceq b sep then Some r
        else if isDigit b then
          match r with
          | String c r' => if ceq c sep then Some r' else None
          | EmptyString => None
          end
        else None
      else None
  | _ => None
  end.

Definition startsWithDigit (s : string) : bool :=
  match s with
  | String c _ => isDigit c
  | EmptyString => false
  end.

(** [/^\d{5}$/] *)
Definition fiveDigits (s : string) : bool :=
  match digitsN 5 s with
  | Some EmptyString => true
  | _ => false
  end.

(** [/^\d{4}-\d{1,2}-\d{1,2}/] *)
Definition ymdPrefix (s : string) : bool :=
  match digitsN 4 s with
  | Some (String c r) =>
      ceq c "-" &&
      match digits12Then "-" r with
      | Some r' => startsWithDigit r'
      | None => false
      end
  | _ => false
  end.

(** One or two digits, a slash, one or two digits, a slash; what follows. *)
Definition mdSlash (s : string) : option string :=
  match digits12Then "/" s with
  | Some r => digits12Then "/" r
  | None => None
  end.

(** [/^\d{1,2}\/\d{1,2}\/\d{4}/] *)
Definition mdyPrefix4 (s : string) : bool :=
  match mdSlash s with
  | Some r => isSome (digitsN 4 r)
  | None => false
  end.

(** [/^\d{1,2}\/\d{1,2}\/\d{2,4}/] *)
Definition mdyPrefix2 (s : string) : bool :=
  match mdSlash s with
  | Some r => isSome (digitsN 2 r)
  | None => false
  end.

(** [/^\d{1,2}\/\d{1,2}$/] *)
Definition shortMd (s : string) : bool :=
  match digits12Then "/" s with
  | Some (String a EmptyString) => isDigit a
  | Some (String a (String b EmptyString)) => isDigit a && isDigit b
  | _ => false
  end.

End Pattern.

(** ** sheets.js: the CSV parser *)

Module Sheets.

Import Pattern.

(** The first loop of [parseCsv]: lines are cut at newlines outside
    quotes.  A quote character toggles [inQuotes] and is not copied; a
    doubled quote inside quotes is copied as one quote. *)
Fixpoint splitLines_go (text current : string) (inQuotes : bool)
    (lines : list string) : list string * string :=
  match text with
  | EmptyString => (lines, current)
  | String ch rest =>
      if ceq ch dquote then
        match inQuotes, rest with
        | true, String ch' rest' =>
            if ceq ch' dquote
            then splitLines_go rest' (current +:+ String dquote "") inQuotes lines
            else splitLines_go rest current (negb inQuotes) lines
        | _, _ => splitLines_go rest current (negb inQuotes) lines
        end
      else if ceq ch LF && negb inQuotes then
        splitLines_go rest "" inQuotes (lines ++ [current])
      else if ceq ch CR && negb inQuotes then
        splitLines_go rest current inQuotes lines
      else splitLines_go rest (current +:+ String ch "") inQuotes lines
  end.

Definition splitLines (text : string) : list string :=
  let '(lines, current) := splitLines_go text "" false [] in
  if negb (String.eqb (trim current) "") then lines ++ [current] else lines.

(** [splitRow]: fields are cut at commas outside quotes, with the same
    treatment of quotes. *)
Fixpoint splitRow_go (line field : string) (q : bool) (fields : list string)
    : list string :=
  match line with
  | EmptyString => fields ++ [field]
  | String c rest =>
      if ceq c dquote then
        match q, rest with
        | true, String c' rest' =>
            if ceq c' dquote
            then splitRow_go rest' (field +:+ String dquote "") q fields
            else splitRow_go rest field (negb q) fields
        | _, _ => splitRow_go rest field (negb q) fields
        end
      else if ceq c "," && negb q then
        splitRow_go rest "" q (fields ++ [field])
      else splitRow_go rest (field +:+ String c "") q fields
  end.

Definition splitRow (line : string) : list string := splitRow_go line "" false [].

(** A counter held by [headerCounts]: a number of occurrences, or the
    NaN that the increment of an inherited member leaves. *)
Inductive Count : Type :=
  | CountNaN
  | CountOf (n : nat).

(** [String(c)] *)
Definition showCount (c : Count) : string :=
  match c with
  | CountNaN => "NaN"
  | CountOf n => showZ (Z.of_nat n)
  end.

(** One step of the header renaming.  [headerCounts] holds the own
    properties of the counter object, which is written [{}]: under a name
    it inherits, the first read finds the inherited member, which is
    truthy, so the name is taken for a repetition; its increment is NaN. *)
Definition dedupStep (st : gmap string Count * list string) (h : string)
    : gmap string Count * list string :=
  let '(headerCounts, out) := st in
  let key := trim h in
  match headerCounts !! key with
  | Some (CountOf (S c)) =>
      (<[key := CountOf (S (S c))]> headerCounts,
       out ++ [key +:+ "_" +:+ showCount (CountOf (S (S c)))])
  | Some _ => (<[key := CountOf 1]> headerCounts, out ++ [key])
  | None =>
      if inherited key then
        if String.eqb key "__proto__"
        then (headerCounts, out ++ [key +:+ "_" +:+ "[object Object]"])
        else (<[key := CountNaN]> headerCounts,
              out ++ [key +:+ "_" +:+ showCount CountNaN])
      else (<[key := CountOf 1]> headerCounts, out ++ [key])
  end.

Definition uniqueHeaders (headers : list string) : list string :=
  snd (fold_left dedupStep headers (∅, [])).

(** The typing of one cell under the column named [h]. *)
Definition typeCell (h v : string) : JsVal :=
  let trimmed := trim v in
  if String.eqb trimmed "" then JNull
  else if ymdPrefix trimmed || mdyPrefix4 trimmed then JStr trimmed
  else if fiveDigits trimmed && includesCI "date" h then JStr trimmed
  else
    let num := toNumberStr trimmed in
    if negb (isNaN num) then JNum num else JStr trimmed.

(** The object built for one data line. *)
Definition buildRow (uniqueHeaders values : list string) : Row :=
  fold_left (fun obj '(idx, h) =>
               let v := default "" (values !! idx) in
               <[trim h := typeCell h v]> obj)
            (imap (fun idx h => (idx, h)) uniqueHeaders) ∅.

Definition allBlank (values : list string) : bool :=
  forallb (fun v => String.eqb (trim v) "") values.

(** [parseCsv(text)].  The byte-order mark is the code unit 0xFEFF, which
    no [ascii] holds, so its removal leaves every text of the model as
    it is. *)
Definition parseCsv (text : string) : list Row :=
  match splitLines text with
  | [] => []
  | header :: dataLines =>
      let unique := uniqueHeaders (splitRow header) in
      fold_left (fun result line =>
                   let values := splitRow line in
                   if allBlank values then result
                   else result ++ [buildRow unique values])
                dataLines []
  end.

End Sheets.

(** ** portfolio.js: its own line and field splitters *)

Module Portfolio.

(** [splitCsvLines]: as the first loop of [parseCsv], but quote
    characters are kept in the line for [splitRow] to interpret. *)
Fixpoint splitCsvLines_go (text current : string) (inQuotes : bool)
    (lines : list string) : list string * string :=
  match text with
  | EmptyString => (lines, current)
  | String ch rest =>
      if ceq ch dquote then
        match inQuotes, rest with
        | true, String ch' rest' =>
            if ceq ch' dquote
            then splitCsvLines_go rest'
                   (current +:+ String dquote (String dquote "")) inQuotes lines
            else splitCsvLines_go rest (current +:+ String dquote "")
                   (negb inQuotes) lines
        | _, _ => splitCsvLines_go rest (current +:+ String dquote "")
                    (negb inQuotes) lines
        end
      else if ceq ch LF && negb inQuotes then
        splitCsvLines_go rest "" inQuotes (lines ++ [current])
      else if ceq ch CR && negb inQuotes then
        splitCsvLines_go rest current inQuotes lines
      else splitCsvLines_go rest (current +:+ String ch "") inQuotes lines
  end.

Definition splitCsvLines (text : string) : list string :=
  let '(lines, current) := splitCsvLines_go text "" false [] in
  if negb (String.eqb (trim current) "") then lines ++ [current] else lines.

(** [splitRow] of portfolio.js is the function of sheets.js, line for
    line. *)
Definition splitRow : string -> list string := Sheets.splitRow.

End Portfolio.

(** ** The escaping convention of the tokenizer *)

Module Csv.

(** Every quote character of the field is doubled. *)
Fixpoint escapeQuotes (field : string) : string :=
  match field with
  | EmptyString => EmptyString
  | String c r =>
      if ceq c dquote then String dquote (String dquote (escapeQuotes r))
      else String c (escapeQuotes r)
  end.

(** The field wrapped in quotes. *)
Definition encodeField (field : string) : string :=
  String dquote (escapeQuotes field +:+ String dquote "").

End Csv.

(** ** screener.js: ticker identity, reconciliation and sorting *)

Module Screener.

(** [toLowerCase] on one code unit: the ASCII and Latin-1 capitals. *)
Definition lowerChar (c : ascii) : ascii :=
  let n := code c in
  if ((65 <=? n) && (n <=? 90)) ||
     ((192 <=? n) && (n <=? 222) && negb (n =? 215))
  then ascii_of_N (Z.to_N (n + 32)) else c.

Fixpoint toLowerCase (s : string) : string :=
  match s with
  | EmptyString => EmptyString
  | String c r => String (lowerChar c) (toLowerCase r)
  end.

(** [String.prototype.includes] *)
Fixpoint includes (needle s : string) : bool :=
  isSome (stripPrefix needle s) ||
  match s with
  | String _ r => includes needle r
  | EmptyString => false
  end.

(** A stable insertion sort: the order [Array.prototype.sort] produces
    for a comparator that is consistent.  [gt a b] is [compare(a, b) > 0]. *)
Section Sort.

Context {A : Type} (gt : A -> A -> bool).

Fixpoint insertSorted (x : A) (l : list A) : list A :=
  match l with
  | [] => [x]
  | y :: l' => if gt x y then y :: insertSorted x l' else x :: l
  end.

Fixpoint sortWith (l : list A) : list A :=
  match l with
  | [] => []
  | x :: l' => insertSorted x (sortWith l')
  end.

End Sort.

(** *** The pattern of [stripFormula] *)

Definition quoteStr : string := String dquote "".
Definition openPat : string := "=HYPERLINK(" +:+ quoteStr.
Definition sepPat : string := quoteStr +:+ "," +:+ quoteStr.
Definition closePat : string := quoteStr +:+ ")".

(** The lazy group [(.+?)] followed by the closing quote and bracket:
    [acc] holds the characters taken so far, at least one. *)
Fixpoint group_go (g acc : string) : option string :=
  match stripPrefix closePat g with
  | Some _ => Some acc
  | None =>
      match g with
      | String c r =>
          if isLineTerminator c then None else group_go r (acc +:+ String c "")
      | EmptyString => None
      end
  end.

Definition group (g : string) : option string :=
  match g with
  | String c r => if isLineTerminator c then None else group_go r (String c "")
  | EmptyString => None
  end.

(** The lazy [.*?], then the separator and the group. *)
Fixpoint lazyUrl (r : string) : option string :=
  match match stripPrefix sepPat r with
        | Some g => group g
        | None => None
        end with
  | Some m => Some m
  | None =>
      match r with
      | String c r' => if isLineTerminator c then None else lazyUrl r'
      | EmptyString => None
      end
  end.

(** The leftmost match of [/=HYPERLINK\(".*?","(.+?)"\)/i]: its group. *)
Fixpoint matchFormula (s : string) : option string :=
  match match stripPrefixCI openPat s with
        | Some r => lazyUrl r
        | None => None
        end with
  | Some m => Some m
  | None =>
      match s with
      | String _ r => matchFormula r
      | EmptyString => None
      end
  end.

(** *** Entry thresholds *)

Definition ofQ (q : Q) : number := Fin q.

Definition adr_ok (v : number) : bool := nge v (ofQ (5 # 2)) && nle v (ofZ 7).
Definition r21_ok (v : number) : bool := nge v (ofQ (- 3 # 10)) && nle v (ofQ (8 # 10)).
Definition e21_ok (v : number) : bool := nle v (ofZ 4).
Definition r50_ok (v : number) : bool := nle v (ofQ (5 # 2)).

Record Entry : Type := { adr : number; atr21e : number; e21p : number; atr50s : number }.

Definition getEntry (row : Row) : Entry := {|
  adr := parseFloat (coalesce (row !! "ADR%")
                       (coalesce (row !! "ADR%(20D)") (row !! "ADR")));
  atr21e := parseFloat (coalesce (row !! "R×21E")
                          (coalesce (row !! "ATR_21EMA") (row !! "ATR21E_R")));
  e21p := parseFloat (coalesce (row !! "E21L%") (row !! "Dist_21EMA%"));
  atr50s := parseFloat (coalesce (row !! "R×50S")
                          (coalesce (row !! "ATR_50SMA") (row !! "ATR50S_R"))) |}.

Definition entryScore (row : Row) : Z :=
  let e := getEntry row in
  (if negb (isNaN (adr e)) && adr_ok (adr e) then 1 else 0) +
  (if negb (isNaN (atr21e e)) && r21_ok (atr21e e) then 1 else 0) +
  (if negb (isNaN (e21p e)) && e21_ok (e21p e) then 1 else 0) +
  (if negb (isNaN (atr50s e)) && r50_ok (atr50s e) then 1 else 0).

(** The dropdown sorts read a number with [-9999] for a missing one. *)
Definition num (v : option JsVal) : number :=
  let n := parseFloat v in if isNaN n then ofZ (-9999) else n.

(** [x === '' ] or [x == null]: the fields the merge may fill. *)
Definition isBlank (v : option JsVal) : bool :=
  isNullish v ||
  match v with
  | Some (JStr s) => String.eqb s ""
  | _ => false
  end.

(** [existing[key] == null || existing[key] === '']: the read finds the
    own property, or else the member the record inherits under that
    name, which is not blank. *)
Definition blankAt (existing : Row) (key : string) : bool :=
  match existing !! key with
  | Some v => isBlank (Some v)
  | None => negb (inherited key)
  end.

(** The inner loop of the merge: every key of [row] whose value is not
    blank fills the field of [existing] when that one is blank. *)
Definition mergeMissing (existing row : Row) : Row :=
  map_fold (fun key v existing =>
              if blankAt existing key && negb (isBlank (Some v))
              then <[key := v]> existing else existing)
           existing row.

(** An entry of the overlap map. *)
Record TickerInfo : Type := {
  screens : list string; name : string; sector : JsVal; bestRow : Row }.

Definition count (info : TickerInfo) : Z := Z.of_nat (length (screens info)).

(** [Set.prototype.add] on the insertion-ordered list of members. *)
Definition setAdd (x : string) (l : list string) : list string :=
  if bool_decide (x ∈ l) then l else l ++ [x].

Inductive SortDir : Type := Asc | Desc.

Record HeaderSort : Type := { col : option string; dir : option SortDir }.

Section Host.

(** The host's rendering of a number that is not a safe integer, and its
    collation of two strings under the locale [ja]. *)
Variable hostShow : Q -> string.
Variable localeCompare : string -> string -> Z.

(** [stripFormula(v)] *)
Definition stripFormula (v : option JsVal) : string :=
  if isNullish v then ""
  else
    let s := toStr hostShow v in
    match matchFormula s with
    | Some m => m
    | None => s
    end.

(** [buildTickerMap(data)]: the sources in their order, each with its
    rows.  The map is written [{}]: under a ticker it inherits, the read
    [map[ticker]] finds the inherited member, no entry is made, and the
    call of [screens.add] on it throws; the result is then [None]. *)
Definition tickerStep (screenKey : string) (map : gmap string TickerInfo)
    (row : Row) : option (gmap string TickerInfo) :=
  let ticker := stripFormula (row !! "Ticker") in
  if String.eqb ticker "" then Some map
  else
    let add (info : TickerInfo) :=
      <[ticker := {| screens := setAdd screenKey (screens info);
                     name := name info; sector := sector info;
                     bestRow := bestRow info |}]> map in
    match map !! ticker with
    | Some info => Some (add info)
    | None =>
        if inherited ticker then None
        else Some (add {| screens := [];
                          name := stripFormula (row !! "Name");
                          sector := (if truthy (row !! "Sector")
                                     then default (JStr "") (row !! "Sector")
                                     else JStr "");
                          bestRow := row |})
    end.

Definition buildTickerMap (data : list (string * list Row))
    : option (gmap string TickerInfo) :=
  fold_left (fun map '(screenKey, rows) =>
               fold_left (fun map row => map ≫= fun m => tickerStep screenKey m row)
                         rows map)
            data (Some ∅).

(** The deduplicated list of the ALL tab.  [seen] maps a ticker to the
    index of its record in [data]; it is written [{}].  Under a ticker it
    inherits, [seen[ticker]] is the inherited member and not [undefined],
    [data] has nothing under it, and the read of a field of the record
    that is not there throws: the result is then [None]. *)
Definition dedupStep (screenKey : string)
    (st : gmap string nat * list Row) (row : Row)
    : option (gmap string nat * list Row) :=
  let '(seen, data) := st in
  let ticker := stripFormula (row !! "Ticker") in
  if String.eqb ticker "" then Some st
  else
    match seen !! ticker with
    | Some i =>
        match data !! i with
        | Some existing => Some (seen, <[i := mergeMissing existing row]> data)
        | None => None
        end
    | None =>
        if inherited ticker then None
        else Some (<[ticker := length data]> seen,
                   data ++ [<["_screenKey" := JStr screenKey]> row])
    end.

(** The rows of one source, after the state [st]. *)
Definition dedupRows (screenKey : string) (rows : list Row)
    (st : option (gmap string nat * list Row))
    : option (gmap string nat * list Row) :=
  fold_left (fun st row => st ≫= fun s => dedupStep screenKey s row) rows st.

Definition dedupAll (screenData : list (string * list Row)) : option (list Row) :=
  snd <$> fold_left (fun st '(screenKey, rows) => dedupRows screenKey rows st)
                    screenData (Some (∅, [])).

(** The view state read by [renderScreenTable]. *)
Record View : Type := {
  currentScreen : string;
  screenData : list (string * list Row);
  tickerMap : gmap string TickerInfo;
  headerSort : HeaderSort;
  currentSector : option string }.

Definition lookupScreen (data : list (string * list Row)) (key : string)
    : list Row :=
  match List.find (fun '(k, _) => String.eqb k key) data with
  | Some (_, rows) => rows
  | None => []
  end.

(** The value a header sort compares for the column [c]. *)
Definition sortValue (tm : gmap string TickerInfo) (c : string) (a : Row)
    : option JsVal :=
  if String.eqb c "Ticker" then Some (JStr (stripFormula (a !! "Ticker")))
  else if String.eqb c "Name" then Some (JStr (stripFormula (a !! "Name")))
  else if String.eqb c "Screens" then
    Some (JNum (match tm !! stripFormula (a !! "Ticker") with
                | Some info => orElse (ofZ (count info)) (ofZ 0)
                | None => ofZ 0
                end))
  else if String.eqb c "ADR%" then Some (JNum (adr (getEntry a)))
  else if String.eqb c "R×21E" then Some (JNum (atr21e (getEntry a)))
  else if String.eqb c "E21L%" then Some (JNum (e21p (getEntry a)))
  else if String.eqb c "R×50S" then Some (JNum (atr50s (getEntry a)))
  else if String.eqb c "基準" then Some (JNum (ofZ (entryScore a)))
  else a !! c.

Definition isTextCol (c : string) : bool :=
  String.eqb c "Ticker" || String.eqb c "Name" || String.eqb c "Sector".

Definition dirFactor (d : option SortDir) : Z :=
  match d with Some Asc => 1 | _ => -1 end.

(** The comparator of the header sort. *)
Definition headerCompare (tm : gmap string TickerInfo) (c : string)
    (d : option SortDir) (a b : Row) : number :=
  let va := sortValue tm c a in
  let vb := sortValue tm c b in
  if isTextCol c then
    ofZ (localeCompare (toStr hostShow (if truthy va then va else Some (JStr "")))
                       (toStr hostShow (if truthy vb then vb else Some (JStr "")))
         * dirFactor d)
  else
    let na := parseFloat va in
    let nb := parseFloat vb in
    if isNaN na && isNaN nb then ofZ 0
    else if isNaN na then ofZ 1
    else if isNaN nb then ofZ (-1)
    else nmul (nsub na nb) (ofZ (dirFactor d)).

Definition sortBy (cmp : Row -> Row -> number) (data : list Row) : list Row :=
  sortWith (fun a b => ngt (cmp a b) (ofZ 0)) data.

(** The rows [renderScreenTable] goes on to draw: selection, the two
    filters, then the sort. *)
Definition renderScreenTable (v : View) (searchText sortKey : string)
    : option (list Row) :=
  data ← (if String.eqb (currentScreen v) "ALL" then dedupAll (screenData v)
          else Some (lookupScreen (screenData v) (currentScreen v)));
  let data :=
    match currentSector v with
    | Some sec =>
        if String.eqb sec "" then data
        else List.filter (fun row => match row !! "Sector" with
                                     | Some (JStr s) => String.eqb s sec
                                     | _ => false
                                     end) data
    | None => data
    end in
  let data :=
    if String.eqb searchText "" then data
    else
      let q := toLowerCase searchText in
      let hit (v : option JsVal) :=
        truthy v && includes q (toLowerCase (toStr hostShow v)) in
      List.filter (fun row => hit (row !! "Ticker") || hit (row !! "Name")
                              || hit (row !! "Sector")) data in
  Some
    match col (headerSort v) with
    | Some c =>
        if String.eqb c "" then data
        else sortBy (headerCompare (tickerMap v) c (dir (headerSort v))) data
    | None =>
        if String.eqb sortKey "rs21-desc" then
          sortBy (fun a b => nsub (num (b !! "RS21")) (num (a !! "RS21"))) data
        else if String.eqb sortKey "rs21-asc" then
          sortBy (fun a b => nsub (num (a !! "RS21")) (num (b !! "RS21"))) data
        else if String.eqb sortKey "change-desc" then
          sortBy (fun a b => nsub (num (b !! "DAY%")) (num (a !! "DAY%"))) data
        else if String.eqb sortKey "change-asc" then
          sortBy (fun a b => nsub (num (a !! "DAY%")) (num (b !! "DAY%"))) data
        else data
    end.

End Host.

End Screener.

(** ** market.js: the short date label *)

Module Market.

Import Pattern.

(** The day number, counted from 1970-01-01, of a civil date; the day of
    the month may run past the end of the month, as in [Date.UTC]. *)
Definition daysFromCivil (y m d : Z) : Z :=
  let y' := if m <=? 2 then y - 1 else y in
  let era := y' / 400 in
  let yoe := y' - era * 400 in
  let mp := (m + 9) mod 12 in
  let doy := (153 * mp + 2) / 5 + d - 1 in
  let doe := yoe * 365 + yoe / 4 - yoe / 100 + doy in
  era * 146097 + doe - 719468.

(** The civil date (year, month 1..12, day) of a day number. *)
Definition civilFromDays (z : Z) : Z * Z * Z :=
  let z := z + 719468 in
  let era := z / 146097 in
  let doe := z - era * 146097 in
  let yoe := (doe - doe / 1460 + doe / 36524 - doe / 146096) / 365 in
  let y := yoe + era * 400 in
  let doy := doe - (365 * yoe + yoe / 4 - yoe / 100) in
  let mp := (5 * doy + 2) / 153 in
  let d := doy - (153 * mp + 2) / 5 + 1 in
  let m := if mp <? 10 then mp + 3 else mp - 9 in
  (if m <=? 2 then y + 1 else y, m, d).

Section Host.

(** The host's rendering of a number that is not a safe integer, and its
    generic date parser: for a text it accepts, the local month (0..11)
    and day of the month of the date it reads. *)
Variable hostShow : Q -> string.
Variable hostDate : string -> option (Z * Z).

Definition show (n : number) : string := numToString hostShow n.

(** The label of the serial-number branch. *)
Definition serialLabel (s : string) : string :=
  match parseIntStr s with
  | Fin q =>
      let '(_, m, d) := civilFromDays (daysFromCivil 1899 12 (30 + Qfloor q)) in
      show (ofZ (m - 1 + 1)) +:+ "/" +:+ show (ofZ d)
  | _ => "NaN/NaN"
  end.

(** The label made of two of the parts of a split. *)
Definition partsLabel (parts : list string) (i j : nat) : string :=
  show (parseIntStr (default "undefined" (parts !! i))) +:+ "/" +:+
  show (parseIntStr (default "undefined" (parts !! j))).

(** [formatDateLabel(d)] *)
Definition formatDateLabel (d : option JsVal) : string :=
  if negb (truthy d) then ""
  else
    let s := trim (toStr hostShow d) in
    if fiveDigits s then serialLabel s
    else if ymdPrefix s then partsLabel (splitOn "-" s) 1 2
    else if mdyPrefix2 s then partsLabel (splitOn "/" s) 0 1
    else if shortMd s then s
    else
      match hostDate s with
      | Some (month, day) => show (ofZ (month + 1)) +:+ "/" +:+ show (ofZ day)
      | None => s
      end.

End Host.

End Market.

(** * Properties *)

(** ** Arithmetic of the number model *)

Module NumFacts.

Lemma Qltb_iff (a b : Q) : Qltb a b = true <-> (a < b)%Q.
Proof.
  unfold Qltb. rewrite Qlt_alt. destruct (a ?= b)%Q; split; congruence.
Qed.

Lemma Qleb_iff (a b : Q) : Qleb a b = true <-> (a <= b)%Q.
Proof.
  unfold Qleb. rewrite Qle_alt. destruct (a ?= b)%Q; split; congruence.
Qed.

Lemma Qeqb_iff (a b : Q) : Qeqb a b = true <-> (a == b)%Q.
Proof.
  unfold Qeqb. rewrite Qeq_alt. destruct (a ?= b)%Q; split; congruence.
Qed.

Lemma Qltb_false (a b : Q) : Qltb a b = false <-> (b <= a)%Q.
Proof.
  rewrite <- not_true_iff_false, Qltb_iff. split.
  - apply Qnot_lt_le.
  - apply Qle_not_lt.
Qed.

Lemma Qleb_false (a b : Q) : Qleb a b = false <-> (b < a)%Q.
Proof.
  rewrite <- not_true_iff_false, Qleb_iff. split.
  - apply Qnot_le_lt.
  - apply Qlt_not_le.
Qed.

Lemma Qeqb_false (a b : Q) : Qeqb a b = false <-> ~ (a == b)%Q.
Proof. rewrite <- not_true_iff_false, Qeqb_iff. tauto. Qed.

(** The integer below [x] is the only one within one of it. *)
Lemma Qfloor_unique (x : Q) (z : Z) :
  (inject_Z z <= x)%Q -> (x < inject_Z (z + 1))%Q -> Qfloor x = z.
Proof.
  intros Hlo Hhi.
  pose proof (Qfloor_le x) as Hf1. pose proof (Qlt_floor x) as Hf2.
  assert (H1 : (inject_Z (Qfloor x) < inject_Z (z + 1))%Q)
    by (eapply Qle_lt_trans; eassumption).
  assert (H2 : (inject_Z z < inject_Z (Qfloor x + 1))%Q)
    by (eapply Qle_lt_trans; eassumption).
  rewrite <- Zlt_Qlt in H1, H2. lia.
Qed.

Lemma Qfloor_add_Z (x : Q) (k : Z) : Qfloor (x + inject_Z k) = Qfloor x + k.
Proof.
  apply Qfloor_unique.
  - rewrite inject_Z_plus. pose proof (Qfloor_le x). lra.
  - replace (Qfloor x + k + 1) with ((Qfloor x + 1) + k) by lia.
    rewrite inject_Z_plus. pose proof (Qlt_floor x). lra.
Qed.

(** [val n q]: the number [n] is finite and its value is [q]. *)
Definition val (n : number) (q : Q) : Prop := exists q', n = Fin q' /\ (q' == q)%Q.

Lemma val_Fin (q : Q) : val (Fin q) q.
Proof. exists q. split; [reflexivity | apply Qeq_refl]. Qed.

Lemma val_ofZ (z : Z) : val (ofZ z) (inject_Z z).
Proof. apply val_Fin. Qed.

Lemma val_eq (n : number) (x y : Q) : val n x -> (x == y)%Q -> val n y.
Proof. intros (q & -> & Hq) Hxy. exists q. split; [reflexivity | lra]. Qed.

Lemma val_inj (n : number) (x y : Q) : val n x -> val n y -> (x == y)%Q.
Proof. intros (q & -> & Hq) (q' & [= <-] & Hq'). lra. Qed.

Lemma val_nadd a b x y : val a x -> val b y -> val (nadd a b) (x + y).
Proof.
  intros (p & -> & Hp) (r & -> & Hr). exists (Qred (p + r)).
  split; [reflexivity | rewrite Qred_correct; lra].
Qed.

Lemma val_nneg a x : val a x -> val (nneg a) (- x).
Proof.
  intros (p & -> & Hp). exists (Qred (- p)).
  split; [reflexivity | rewrite Qred_correct; lra].
Qed.

Lemma val_nsub a b x y : val a x -> val b y -> val (nsub a b) (x - y).
Proof.
  intros Ha Hb. unfold nsub.
  eapply val_eq; [apply val_nadd; [exact Ha | apply val_nneg; exact Hb] | lra].
Qed.

Lemma val_nmul a b x y : val a x -> val b y -> val (nmul a b) (x * y).
Proof.
  intros (p & -> & Hp) (r & -> & Hr). exists (Qred (p * r)).
  split; [reflexivity | rewrite Qred_correct, Hp, Hr; reflexivity].
Qed.

Lemma val_ndiv a b x y :
  val a x -> val b y -> ~ (y == 0)%Q -> val (ndiv a b) (x / y).
Proof.
  intros (p & -> & Hp) (r & -> & Hr) Hy. simpl.
  destruct (Qeqb r 0) eqn:E.
  - apply Qeqb_iff in E. exfalso. apply Hy. lra.
  - exists (Qred (p / r)).
    split; [reflexivity | rewrite Qred_correct, Hp, Hr; reflexivity].
Qed.

Lemma val_mathRound a x :
  val a x -> val (mathRound a) (inject_Z (Qfloor (x + (1 # 2)))).
Proof.
  intros (p & -> & Hp). unfold mathRound, ofZ.
  assert (E : (p + (1 # 2) == x + (1 # 2))%Q) by lra.
  rewrite (Qfloor_comp _ _ E). apply val_Fin.
Qed.

Lemma val_mathMin a b x y : val a x -> val b y -> val (mathMin a b) (Qmin x y).
Proof.
  intros (p & -> & Hp) (r & -> & Hr). simpl.
  destruct (Qleb p r) eqn:E.
  - apply Qleb_iff in E. exists p. split; [reflexivity |].
    rewrite Q.min_l by lra. exact Hp.
  - apply Qleb_false in E. exists r. split; [reflexivity |].
    rewrite Q.min_r by lra. exact Hr.
Qed.

Lemma val_nle a b x y : val a x -> val b y -> (nle a b = true <-> (x <= y)%Q).
Proof.
  intros (p & -> & Hp) (r & -> & Hr). simpl. rewrite Qleb_iff, Hp, Hr. tauto.
Qed.

Lemma val_nlt a b x y : val a x -> val b y -> (nlt a b = true <-> (x < y)%Q).
Proof.
  intros (p & -> & Hp) (r & -> & Hr). simpl. rewrite Qltb_iff, Hp, Hr. tauto.
Qed.

Lemma val_orElse a x : val a x -> val (orElse a (ofZ 0)) x.
Proof.
  intros (p & -> & Hp). unfold orElse. simpl.
  destruct (Qeqb p 0) eqn:E; simpl.
  - apply Qeqb_iff in E. exists (inject_Z 0). split; [reflexivity |].
    rewrite <- Hp, E. reflexivity.
  - exists p. split; [reflexivity | exact Hp].
Qed.

Import Exposure.

(** Rounding to one decimal, on rationals. *)
Definition roundTenth (x : Q) : Q := inject_Z (Qfloor (x * 10 + (1 # 2))) * (1 # 10).

Lemma val_round1 a x : val a x -> val (round1 a) (roundTenth x).
Proof.
  intros Ha. unfold round1, roundTenth.
  eapply val_eq.
  - apply val_ndiv; [| apply val_ofZ | discriminate].
    apply val_mathRound. apply val_nmul; [exact Ha | apply val_ofZ].
  - reflexivity.
Qed.

Lemma roundTenth_mono (x y : Q) : (x <= y)%Q -> (roundTenth x <= roundTenth y)%Q.
Proof.
  intros H. unfold roundTenth.
  assert (Hz : Qfloor (x * 10 + (1 # 2)) <= Qfloor (y * 10 + (1 # 2)))
    by (apply Qfloor_resp_le; lra).
  rewrite Zle_Qle in Hz. lra.
Qed.

(** A multiple of one tenth is its own rounding. *)
Lemma roundTenth_tenths (z : Z) :
  (roundTenth (inject_Z z * (1 # 10)) == inject_Z z * (1 # 10))%Q.
Proof.
  unfold roundTenth.
  replace (Qfloor (inject_Z z * (1 # 10) * 10 + (1 # 2))) with z; [reflexivity |].
  symmetry. apply Qfloor_unique.
  - lra.
  - rewrite inject_Z_plus. change (inject_Z 1) with 1%Q. lra.
Qed.

Lemma roundTenth_Z (z : Z) : (roundTenth (inject_Z z) == inject_Z z)%Q.
Proof.
  assert (E : (inject_Z z == inject_Z (10 * z) * (1 # 10))%Q).
  { rewrite inject_Z_mult. change (inject_Z 10) with 10%Q. lra. }
  unfold roundTenth in *.
  assert (E' : (inject_Z z * 10 + (1 # 2) ==
                inject_Z (10 * z) * (1 # 10) * 10 + (1 # 2))%Q) by lra.
  rewrite (Qfloor_comp _ _ E').
  pose proof (roundTenth_tenths (10 * z)) as H. unfold roundTenth in H.
  rewrite H. lra.
Qed.

Lemma roundTenth_add_Z (x : Q) (k : Z) :
  (roundTenth (x + inject_Z k) == roundTenth x + inject_Z k)%Q.
Proof.
  unfold roundTenth.
  assert (E : ((x + inject_Z k) * 10 + (1 # 2) ==
               (x * 10 + (1 # 2)) + inject_Z (10 * k))%Q)
    by (rewrite inject_Z_mult; change (inject_Z 10) with 10%Q; lra).
  rewrite (Qfloor_comp _ _ E), Qfloor_add_Z, inject_Z_plus, inject_Z_mult.
  change (inject_Z 10) with 10%Q. lra.
Qed.

Lemma roundTenth_nonneg (x : Q) : (0 <= x)%Q -> (0 <= roundTenth x)%Q.
Proof.
  intros H. pose proof (roundTenth_mono 0 x H) as H'.
  pose proof (roundTenth_Z 0) as H0. change (inject_Z 0) with 0%Q in H0. lra.
Qed.

End NumFacts.

(** ** exposure.js: the sector phase *)

Module PhaseFacts.

Import Config Exposure NumFacts.

(** A sector record holding the two fields [derivePhase] reads. *)
Definition sectorOf (rs er : JsVal) : Row :=
  <["RS_21" := rs]> (<["ER_1W" := er]> ∅).

(** The decision table of the specification, on two rationals. *)
Definition phaseTable (rs er : Q) : Z :=
  if Qleb 50 rs && Qltb 0 er then 4
  else if Qltb 0 er && Qleb 30 rs then 3
  else if Qleb er 0 && Qleb 30 rs then 2
  else 1.

Lemma derivePhase_total (sector : Row) :
  derivePhase sector = 1 \/ derivePhase sector = 2 \/
  derivePhase sector = 3 \/ derivePhase sector = 4.
Proof.
  unfold derivePhase.
  repeat match goal with |- context [if ?b then _ else _] => destruct b end;
    auto.
Qed.

Lemma derivePhase_v1_same (sector : Row) : derivePhase_v1 sector = derivePhase sector.
Proof. reflexivity. Qed.

Lemma sectorOf_rs rs er : sectorOf rs er !! "RS_21" = Some rs.
Proof. unfold sectorOf. apply lookup_insert_eq. Qed.

Lemma sectorOf_er rs er : sectorOf rs er !! "ER_1W" = Some er.
Proof.
  unfold sectorOf. rewrite lookup_insert_ne by discriminate.
  apply lookup_insert_eq.
Qed.

(** With a relative strength other than zero the code follows the table. *)
Lemma derivePhase_table (rs er : Q) :
  ~ (rs == 0)%Q ->
  derivePhase (sectorOf (JNum (Fin rs)) (JNum (Fin er))) = phaseTable rs er.
Proof.
  intros Hrs. unfold derivePhase. rewrite sectorOf_rs, sectorOf_er.
  unfold parseFloat, orElse, truthyNum.
  apply Qeqb_false in Hrs. rewrite Hrs. cbn [negb].
  unfold phaseTable.
  destruct (Qeqb er 0) eqn:Her; cbn [negb]; [| reflexivity].
  apply Qeqb_iff in Her.
  assert (H1 : Qltb 0 er = false) by (apply Qltb_false; lra).
  assert (H2 : Qleb er 0 = true) by (apply Qleb_iff; lra).
  unfold nge, ngt, nle, nlt, ofZ. cbn [rs21Min strong improving stalling PHASE].
  rewrite H1, H2. reflexivity.
Qed.

(** A relative strength of zero is replaced by the default 50. *)
Lemma derivePhase_zero_rs (rs er : Q) :
  (rs == 0)%Q ->
  derivePhase (sectorOf (JNum (Fin rs)) (JNum (Fin er))) = phaseTable 50 er.
Proof.
  intros Hrs. unfold derivePhase. rewrite sectorOf_rs, sectorOf_er.
  unfold parseFloat, orElse, truthyNum.
  apply Qeqb_iff in Hrs. rewrite Hrs. cbn [negb].
  unfold phaseTable.
  destruct (Qeqb er 0) eqn:Her; cbn [negb]; [| reflexivity].
  apply Qeqb_iff in Her.
  assert (H1 : Qltb 0 er = false) by (apply Qltb_false; lra).
  assert (H2 : Qleb er 0 = true) by (apply Qleb_iff; lra).
  unfold nge, ngt, nle, nlt, ofZ. cbn [rs21Min strong improving stalling PHASE].
  rewrite H1, H2. reflexivity.
Qed.

(** A missing or unreadable relative strength counts as 50, a missing
    revision as 0. *)
Lemma derivePhase_defaults (sector : Row) :
  parseFloat (sector !! "RS_21") = NaN ->
  derivePhase sector
  = derivePhase (<["RS_21" := JNum (ofZ 50)]> sector) /\
  derivePhase ∅ = derivePhase (sectorOf (JNum (ofZ 50)) (JNum (ofZ 0))).
Proof.
  intros H. split; [| reflexivity].
  unfold derivePhase. rewrite H, lookup_insert_eq.
  rewrite lookup_insert_ne by discriminate. reflexivity.
Qed.

Example derivePhase_50_1 :
  derivePhase (sectorOf (JNum (ofZ 50)) (JNum (ofZ 1))) = 4.
Proof. reflexivity. Qed.

Example derivePhase_30_1 :
  derivePhase (sectorOf (JNum (ofZ 30)) (JNum (ofZ 1))) = 3.
Proof. reflexivity. Qed.

Example derivePhase_30_0 :
  derivePhase (sectorOf (JNum (ofZ 30)) (JNum (ofZ 0))) = 2.
Proof. reflexivity. Qed.

(** C2, at the input where the code leaves the specification.  The
    phase is one of 1..4 on every record and the first three examples of
    the specification hold, but a relative strength of exactly 0 is
    falsy, so [|| 50] replaces it by the default: for RS = 0 and
    revision = -1 the code answers Phase 2 where the specification, and
    the comment above the function (Phase 1 = RS low and ER negative),
    say Phase 1. *)
Theorem derivePhase_rs0_is_phase2 :
  derivePhase (sectorOf (JNum (ofZ 0)) (JNum (ofZ (-1)))) = 2 /\
  derivePhase_v1 (sectorOf (JNum (ofZ 0)) (JNum (ofZ (-1)))) = 2 /\
  phaseTable 0 (-1) = 1.
Proof. repeat split; reflexivity. Qed.

End PhaseFacts.

(** ** exposure.js: the exposure score *)

Module ExposureFacts.

Import Config Exposure NumFacts.

(** The per-index shares after their rounding to two decimals. *)
Definition perIdx1 : number := Fin (1167 # 100).
Definition halfIdx1 : number := Fin (583 # 100).
Definition perIdx2 : number := Fin (333 # 100).

(** The points of the factor at position [k] of the breakdown. *)
Definition factorPts (k : nat) (r : Result) : number :=
  match components r !! k with
  | Some c => pts c
  | None => NaN
  end.

(** The factors of [calcExposure] one by one. *)
Lemma calcExposure_unfold indices breadth sectors :
  let enriched := List.map (enrich (ofZ 1)) indices in
  let s1 := round1 (sumEma21 perIdx1 halfIdx1 enriched) in
  let s2 := round1 (sumSma50 perIdx2 enriched) in
  let t := orElse (toraku25 breadth) (ofZ 0) in
  let s3 := torakuPts (torakuCfg EXPOSURE) t in
  let s4 := nhNlPts EXPOSURE (orElse (newHigh breadth) (ofZ 0))
                             (orElse (newLow breadth) (ofZ 0)) in
  let s5 := advPts (advPctSteps EXPOSURE) (orElse (advPct breadth) (ofZ 0)) in
  let s6 := sectorPts EXPOSURE sectors in
  let rawSum :=
    nadd (nadd (nadd (nadd (nadd (nadd (ofZ 0) s1) s2) s3) s4) s5) s6 in
  let r := calcExposure indices breadth sectors in
  components r =
    [ {| name := "Index×21EMA"; pts := s1; max := ofZ 35; warningLabel := None |};
      {| name := "Index×50SMA"; pts := s2; max := ofZ 10; warningLabel := None |};
      {| name := "騰落レシオ(25)"; pts := s3; max := ofZ 17;
         warningLabel := torakuWarning (torakuCfg EXPOSURE) t |};
      {| name := "NH/NL比率"; pts := s4; max := ofZ 13; warningLabel := None |};
      {| name := "値上がり率"; pts := s5; max := ofZ 10; warningLabel := None |};
      {| name := "Sector Breadth"; pts := s6; max := ofZ 15;
         warningLabel := None |} ] /\
  killSwitch r = neqb s1 (ofZ 0) /\
  score r = (if neqb s1 (ofZ 0) then ofZ 0
             else round1 (mathMin (ofZ 100) rawSum)) /\
  label r = labelOf (killSwitch r) (score r) /\
  raw r = round1 rawSum.
Proof. repeat split; reflexivity. Qed.

(** *** The kill switch *)

Lemma enrich_below (idx : Row) (x : number) :
  idx !! "Dist_21EMA%" = Some (JNum x) ->
  nle x (nneg (insideBand EXPOSURE)) = true ->
  emaPos (enrich (ofZ 1) idx) = below.
Proof.
  intros Hx Hle. unfold enrich. rewrite Hx. cbn [emaPos parseFloat].
  destruct x as [| | q |]; try discriminate.
  - reflexivity.
  - change (nneg (insideBand EXPOSURE)) with (Fin (-1 # 1)) in Hle.
    unfold nle in Hle. apply Qleb_iff in Hle.
    assert (E0 : Qeqb q 0 = false) by (apply Qeqb_false; lra).
    unfold orElse, truthyNum. rewrite E0. cbn [negb].
    change (nneg (ofZ 1)) with (Fin (-1 # 1)). unfold ngt, nlt, ofZ.
    assert (E1 : Qltb (inject_Z 1) q = false)
      by (apply Qltb_false; change (inject_Z 1) with 1%Q; lra).
    assert (E2 : Qltb (-1 # 1) q = false) by (apply Qltb_false; exact Hle).
    rewrite E1, E2. reflexivity.
Qed.

Lemma fold_ema21_below (p h : number) (l : list Enriched) (acc : number) :
  Forall (fun e => emaPos e = below) l ->
  fold_left (fun s1 idx =>
               match emaPos idx with
               | above => nadd s1 p
               | inside => nadd s1 h
               | below => s1
               end) l acc = acc.
Proof.
  intros H. revert acc. induction H as [| e l He _ IH]; intros acc.
  - reflexivity.
  - cbn [fold_left]. rewrite He. apply IH.
Qed.

(** C1.  When the 21-EMA distance of every index row is a number at or
    below minus the band, the Index x 21EMA factor scores 0, the kill
    switch is on, the score is 0 and the label is RISK OFF, whatever the
    other five factors contribute. *)
Theorem kill_switch_overrides_score
    (indices : list Row) (breadth : Breadth) (sectors : list Row) :
  Forall (fun idx => exists x, idx !! "Dist_21EMA%" = Some (JNum x) /\
                               nle x (nneg (insideBand EXPOSURE)) = true)
         indices ->
  let r := calcExposure indices breadth sectors in
  factorPts 0 r = ofZ 0 /\
  (exists c, components r !! 0%nat = Some c /\ name c = "Index×21EMA") /\
  killSwitch r = true /\ score r = ofZ 0 /\ label r = "RISK OFF".
Proof.
  intros H r.
  destruct (calcExposure_unfold indices breadth sectors)
    as (Hc & Hk & Hs & Hl & _).
  fold r in Hc, Hk, Hs, Hl.
  assert (E : sumEma21 perIdx1 halfIdx1 (List.map (enrich (ofZ 1)) indices) = ofZ 0).
  { unfold sumEma21. apply fold_ema21_below.
    apply List.Forall_map. eapply List.Forall_impl; [| exact H].
    intros idx (x & Hx & Hle). eapply enrich_below; eassumption. }
  rewrite E in Hc, Hk, Hs.
  assert (Hk' : killSwitch r = true) by (rewrite Hk; reflexivity).
  assert (Hs' : score r = ofZ 0) by (rewrite Hs; reflexivity).
  unfold factorPts. rewrite Hc. cbn [lookup list_lookup pts].
  repeat split.
  - eexists. split; reflexivity.
  - exact Hk'.
  - exact Hs'.
  - rewrite Hl, Hk'. reflexivity.
Qed.

(** An input on which the other five factors total 65 points: three
    indices 2% below their 21-EMA and above their 50-SMA, an optimal
    advance/decline ratio, 200 new highs against none, 60% advancing
    issues and one sector in Phase 4 with a band value of 30. *)
Definition bearishIndex : Row :=
  <["Dist_21EMA%" := JNum (ofZ (-2))]> (<["Dist_50MA%" := JNum (ofZ 1)]> ∅).

Definition strongBreadth : Breadth :=
  {| toraku25 := ofZ 110; newHigh := ofZ 200; newLow := ofZ 0; advPct := ofZ 60 |}.

Definition strongSector : Row :=
  <["Sector" := JStr "Banks"]>
    (<["RS_21" := JNum (ofZ 70)]>
       (<["ER_1W" := JNum (ofZ 1)]> (<["Band80_Pct" := JNum (ofZ 30)]> ∅))).

Lemma kill_switch_overrides_score_witness :
  let r := calcExposure [bearishIndex; bearishIndex; bearishIndex]
                        strongBreadth [strongSector] in
  raw r = ofZ 65 /\ killSwitch r = true /\ score r = ofZ 0 /\
  label r = "RISK OFF".
Proof.
  intros r.
  destruct (kill_switch_overrides_score
              [bearishIndex; bearishIndex; bearishIndex]
              strongBreadth [strongSector]) as (_ & _ & Hk & Hs & Hl).
  - repeat constructor; exists (ofZ (-2)); split; reflexivity.
  - split; [vm_compute; reflexivity |]. repeat split; assumption.
Defined.

(** *** Factor 4: new highs against new lows *)

(** The factor as the specification words it: the share of new highs
    times (weight - bonus ceiling), zero when there are no highs or lows;
    plus 3 from 100 new highs on, else 2 from 50 on; clamped to the
    weight 13; rounded to one decimal. *)
Definition nhNlBase (nh nl : Q) : Q :=
  if Qeqb (nh + nl) 0 then 0 else nh / (nh + nl) * (13 - 3).

Definition nhNlBonus (nh : Q) : Q :=
  if Qleb 100 nh then 3 else if Qleb 50 nh then 2 else 0.

Definition nhNlSpec (nh nl : Q) : Q :=
  roundTenth (Qmin 13 (nhNlBase nh nl + nhNlBonus nh)).

Lemma roundTenth_comp (x y : Q) : (x == y)%Q -> (roundTenth x == roundTenth y)%Q.
Proof.
  intros H. unfold roundTenth.
  assert (E : (x * 10 + (1 # 2) == y * 10 + (1 # 2))%Q) by lra.
  rewrite (Qfloor_comp _ _ E). reflexivity.
Qed.

Lemma roundTenth_idem (x : Q) : (roundTenth (roundTenth x) == roundTenth x)%Q.
Proof. unfold roundTenth at 2 3. apply roundTenth_tenths. Qed.

(** Clamping at a whole number commutes with the rounding. *)
Lemma roundTenth_min (c : Z) (y : Q) :
  (Qmin (inject_Z c) (roundTenth y) == roundTenth (Qmin (inject_Z c) y))%Q.
Proof.
  pose proof (roundTenth_Z c) as Hc.
  destruct (Qlt_le_dec (inject_Z c) y) as [Hlt | Hle].
  - assert (H1 : (inject_Z c <= y)%Q) by lra.
    pose proof (roundTenth_mono _ _ H1) as H2.
    rewrite Q.min_l by lra.
    rewrite (roundTenth_comp (Qmin (inject_Z c) y) (inject_Z c))
      by (apply Q.min_l; lra).
    lra.
  - pose proof (roundTenth_mono _ _ Hle) as H2.
    rewrite Q.min_r by lra.
    apply roundTenth_comp. symmetry. apply Q.min_r. lra.
Qed.

Lemma Qmin_comp (c y y' : Q) : (y == y')%Q -> (Qmin c y == Qmin c y')%Q.
Proof.
  intros H.
  destruct (Q.min_spec c y) as [[H0 E] | [H0 E]];
  destruct (Q.min_spec c y') as [[H1 E'] | [H1 E']];
  rewrite E, E'; lra.
Qed.

Lemma nhNlBase_range (nh nl : Q) :
  (0 <= nh)%Q -> (0 <= nl)%Q -> (0 <= nhNlBase nh nl <= 10)%Q.
Proof.
  intros Hh Hl. unfold nhNlBase.
  destruct (Qeqb (nh + nl) 0) eqn:E; [lra |].
  apply Qeqb_false in E.
  assert (Hpos : (0 < nh + nl)%Q).
  { destruct (Qlt_le_dec 0 (nh + nl)); [assumption |].
    exfalso. apply E. lra. }
  assert (Hr0 : (0 <= nh / (nh + nl))%Q).
  { apply Qle_shift_div_l; [exact Hpos | lra]. }
  assert (Hr1 : (nh / (nh + nl) <= 1)%Q).
  { apply Qle_shift_div_r; [exact Hpos | lra]. }
  lra.
Qed.

Lemma nhNlBase_mono (nh nh' nl : Q) :
  (0 <= nh)%Q -> (nh <= nh')%Q -> (0 <= nl)%Q ->
  (nhNlBase nh nl <= nhNlBase nh' nl)%Q.
Proof.
  intros Hh Hle Hl.
  pose proof (nhNlBase_range nh' nl ltac:(lra) Hl) as Hr'.
  unfold nhNlBase in *.
  destruct (Qeqb (nh + nl) 0) eqn:E; [lra |].
  apply Qeqb_false in E.
  assert (Hpos : (0 < nh + nl)%Q).
  { destruct (Qlt_le_dec 0 (nh + nl)); [assumption |].
    exfalso. apply E. lra. }
  assert (Hpos' : (0 < nh' + nl)%Q) by lra.
  destruct (Qeqb (nh' + nl) 0) eqn:E'.
  { apply Qeqb_iff in E'. lra. }
  assert (Hq : (nh / (nh + nl) <= nh' / (nh' + nl))%Q).
  { apply Qle_shift_div_l; [exact Hpos' |].
    assert (Eq : (nh / (nh + nl) * (nh' + nl) == nh * (nh' + nl) / (nh + nl))%Q)
      by (field; lra).
    rewrite Eq. apply Qle_shift_div_r; [exact Hpos |].
    assert (Hm : (nh * nl <= nh' * nl)%Q)
      by (apply Qmult_le_compat_r; assumption).
    lra. }
  lra.
Qed.

Lemma nhNlBonus_cases (nh : Q) :
  nhNlBonus nh = 0%Q \/ nhNlBonus nh = 2%Q \/ nhNlBonus nh = 3%Q.
Proof.
  unfold nhNlBonus. destruct (Qleb 100 nh); [auto |]. destruct (Qleb 50 nh); auto.
Qed.

Lemma nhNlBonus_mono (nh nh' : Q) :
  (nh <= nh')%Q -> (nhNlBonus nh <= nhNlBonus nh')%Q.
Proof.
  intros H. unfold nhNlBonus.
  destruct (Qleb 100 nh) eqn:A; destruct (Qleb 100 nh') eqn:A';
  destruct (Qleb 50 nh) eqn:B; destruct (Qleb 50 nh') eqn:B';
  rewrite ?Qleb_iff, ?Qleb_false in *; lra.
Qed.

Lemma nhNlSpec_mono (nh nh' nl : Q) :
  (0 <= nh)%Q -> (nh <= nh')%Q -> (0 <= nl)%Q ->
  (nhNlSpec nh nl <= nhNlSpec nh' nl)%Q.
Proof.
  intros Hh Hle Hl. unfold nhNlSpec. apply roundTenth_mono.
  pose proof (nhNlBase_mono nh nh' nl Hh Hle Hl).
  pose proof (nhNlBonus_mono nh nh' Hle).
  apply Q.min_le_compat_l. lra.
Qed.

Lemma nhNlSpec_range (nh nl : Q) :
  (0 <= nh)%Q -> (0 <= nl)%Q -> (0 <= nhNlSpec nh nl <= 13)%Q.
Proof.
  intros Hh Hl. unfold nhNlSpec.
  pose proof (nhNlBase_range nh nl Hh Hl) as Hb.
  destruct (nhNlBonus_cases nh) as [E | [E | E]]; rewrite E;
    (split;
     [ apply roundTenth_nonneg; apply Q.min_glb; lra
     | pose proof (roundTenth_Z 13) as H13; change (inject_Z 13) with 13%Q in H13;
       apply Qle_trans with (roundTenth 13);
       [apply roundTenth_mono; apply Q.le_min_l | lra] ]).
Qed.

(** The code computes the factor of the specification: the two
    intermediate roundings and the order of clamp and rounding change
    nothing. *)
Lemma nhNlPts_val (a b : number) (nh nl : Q) :
  val a nh -> val b nl -> (0 <= nh)%Q -> (0 <= nl)%Q ->
  val (nhNlPts EXPOSURE a b) (nhNlSpec nh nl).
Proof.
  intros Ha Hb Hh Hl. unfold nhNlPts.
  cbn [weights nhNl nhBonus threshold100 threshold50 EXPOSURE].
  change (nsub (ofZ 13) (ofZ 3)) with (ofZ 10).
  pose proof (val_nadd _ _ _ _ Ha Hb) as Hs.
  (* the rounded base *)
  assert (H0 : val (if ngt (nadd a b) (ofZ 0)
                    then ndiv (mathRound (nmul (nmul (ndiv a (nadd a b)) (ofZ 10))
                                               (ofZ 10))) (ofZ 10)
                    else ofZ 0)
                   (roundTenth (nhNlBase nh nl))).
  { unfold nhNlBase. destruct (ngt (nadd a b) (ofZ 0)) eqn:G.
    - apply (val_nlt _ _ _ _ (val_ofZ 0) Hs) in G.
      change (inject_Z 0) with 0%Q in G.
      assert (E : Qeqb (nh + nl) 0 = false) by (apply Qeqb_false; lra).
      rewrite E.
      eapply val_eq.
      + apply val_ndiv; [| apply val_ofZ | discriminate].
        apply val_mathRound. apply val_nmul; [| apply val_ofZ].
        apply val_nmul; [| apply val_ofZ].
        apply val_ndiv; [exact Ha | exact Hs | lra].
      + unfold roundTenth. change (inject_Z 10) with 10%Q.
        assert (E' : (nh / (nh + nl) * 10 * 10 + (1 # 2) ==
                      nh / (nh + nl) * (13 - 3) * 10 + (1 # 2))%Q) by lra.
        rewrite (Qfloor_comp _ _ E'). reflexivity.
    - assert (G' : ~ (0 < nh + nl)%Q).
      { intros C. apply (val_nlt _ _ _ _ (val_ofZ 0) Hs) in C.
        unfold ngt in G. congruence. }
      assert (E : Qeqb (nh + nl) 0 = true) by (apply Qeqb_iff; lra).
      rewrite E. eapply val_eq; [apply val_ofZ |].
      pose proof (roundTenth_Z 0) as H. change (inject_Z 0) with 0%Q in *. lra. }
  set (s4 := if ngt (nadd a b) (ofZ 0) then _ else _) in *.
  (* the bonus *)
  assert (H1 : val (if nge a (ofZ 100) then nadd s4 (ofZ 3)
                    else if nge a (ofZ 50) then nadd s4 (ofZ 2) else s4)
                   (roundTenth (nhNlBase nh nl) + nhNlBonus nh)).
  { unfold nhNlBonus, nge.
    destruct (nle (ofZ 100) a) eqn:A.
    - apply (val_nle _ _ _ _ (val_ofZ 100) Ha) in A.
      change (inject_Z 100) with 100%Q in A. apply Qleb_iff in A. rewrite A.
      apply val_nadd; [exact H0 | apply val_ofZ].
    - assert (A' : Qleb 100 nh = false).
      { apply not_true_iff_false. intros C. apply Qleb_iff in C.
        apply (val_nle _ _ _ _ (val_ofZ 100) Ha) in C. congruence. }
      rewrite A'.
      destruct (nle (ofZ 50) a) eqn:B.
      + apply (val_nle _ _ _ _ (val_ofZ 50) Ha) in B.
        change (inject_Z 50) with 50%Q in B. apply Qleb_iff in B. rewrite B.
        apply val_nadd; [exact H0 | apply val_ofZ].
      + assert (B' : Qleb 50 nh = false).
        { apply not_true_iff_false. intros C. apply Qleb_iff in C.
          apply (val_nle _ _ _ _ (val_ofZ 50) Ha) in C. congruence. }
        rewrite B'. eapply val_eq; [exact H0 | lra]. }
  set (s4' := if nge a (ofZ 100) then _ else _) in *.
  (* the clamp *)
  eapply val_eq.
  - apply val_mathMin; [apply val_ofZ | apply val_round1; exact H1].
  - unfold nhNlSpec. change (inject_Z 13) with 13%Q.
    set (base := nhNlBase nh nl).
    assert (E : (roundTenth (roundTenth base + nhNlBonus nh) ==
                 roundTenth (base + nhNlBonus nh))%Q).
    { pose proof (roundTenth_idem base) as Hi.
      destruct (nhNlBonus_cases nh) as [E | [E | E]]; rewrite E.
      - pose proof (roundTenth_add_Z (roundTenth base) 0) as P1.
        pose proof (roundTenth_add_Z base 0) as P2.
        change (inject_Z 0) with 0%Q in *. lra.
      - pose proof (roundTenth_add_Z (roundTenth base) 2) as P1.
        pose proof (roundTenth_add_Z base 2) as P2.
        change (inject_Z 2) with 2%Q in *. lra.
      - pose proof (roundTenth_add_Z (roundTenth base) 3) as P1.
        pose proof (roundTenth_add_Z base 3) as P2.
        change (inject_Z 3) with 3%Q in *. lra. }
    pose proof (roundTenth_min 13 (base + nhNlBonus nh)) as M.
    change (inject_Z 13) with 13%Q in M.
    rewrite <- M. apply Qmin_comp. exact E.
Qed.



(** *** Every factor within its weight *)

Lemma val_closed (n : number) (q : Q) : n = Fin q -> val n q.
Proof. intros ->. apply val_Fin. Qed.

Lemma range_nle (n : number) (q : Q) (lo hi : Z) :
  val n q -> (inject_Z lo <= q <= inject_Z hi)%Q ->
  nle (ofZ lo) n = true /\ nle n (ofZ hi) = true.
Proof.
  intros Hn [H1 H2]. split.
  - apply (val_nle _ _ _ _ (val_ofZ lo) Hn). exact H1.
  - apply (val_nle _ _ _ _ Hn (val_ofZ hi)). exact H2.
Qed.

Ltac closed_range :=
  eexists; split; [apply val_closed; vm_compute; reflexivity | split; lra].

Lemma ema21_range (l : list Enriched) :
  (length l <= 3)%nat ->
  exists q, val (round1 (sumEma21 perIdx1 halfIdx1 l)) q /\ (0 <= q <= 35)%Q.
Proof.
  intros H.
  destruct l as [| [r1 e1 b1] [| [r2 e2 b2] [| [r3 e3 b3] [| x l]]]];
    [ | | | | simpl in H; lia ].
  - closed_range.
  - destruct e1; closed_range.
  - destruct e1, e2; closed_range.
  - destruct e1, e2, e3; closed_range.
Qed.

Lemma sma50_range (l : list Enriched) :
  (length l <= 3)%nat ->
  exists q, val (round1 (sumSma50 perIdx2 l)) q /\ (0 <= q <= 10)%Q.
Proof.
  intros H.
  destruct l as [| [r1 e1 b1] [| [r2 e2 b2] [| [r3 e3 b3] [| x l]]]];
    [ | | | | simpl in H; lia ].
  - closed_range.
  - destruct b1; closed_range.
  - destruct b1, b2; closed_range.
  - destruct b1, b2, b3; closed_range.
Qed.

Lemma toraku_range (t : number) :
  exists q, val (torakuPts (torakuCfg EXPOSURE) t) q /\ (0 <= q <= 17)%Q.
Proof.
  unfold torakuPts.
  repeat match goal with |- context [if ?c then _ else _] => destruct c end;
    closed_range.
Qed.

Lemma advPts_range (ap : number) :
  exists q, val (advPts (advPctSteps EXPOSURE) ap) q /\ (0 <= q <= 10)%Q.
Proof.
  cbn [advPts advPctSteps EXPOSURE].
  repeat match goal with |- context [if ?c then _ else _] => destruct c end;
    closed_range.
Qed.

Lemma sectorTotals_count (l : list Row) (c : nat) (s : number) :
  (fst (fold_left sectorStep l (c, s)) <= c + length l)%nat.
Proof.
  revert c s. induction l as [| x l IH]; intros c s.
  - cbn. lia.
  - cbn [fold_left length sectorStep].
    destruct (derivePhase x =? 4).
    + etransitivity; [apply IH | lia].
    + etransitivity; [apply IH | lia].
Qed.

Lemma sectorPts_range (sectors : list Row) :
  exists q, val (sectorPts EXPOSURE sectors) q /\ (0 <= q <= 15)%Q.
Proof.
  unfold sectorPts.
  cbn [weights sectorBreadth sectorB80Bonus sectorB80Threshold EXPOSURE].
  change (nsub (ofZ 15) (ofZ 5)) with (ofZ 10).
  set (valid := List.filter _ sectors).
  pose proof (sectorTotals_count valid 0 (ofZ 0)) as Hc.
  change (fold_left sectorStep valid (0%nat, ofZ 0)) with (sectorTotals valid) in Hc.
  destruct (sectorTotals valid) as [c s]. cbn [fst] in Hc.
  (* the Phase 4 ratio lies between 0 and 1 *)
  assert (Hr : exists r, val (if 0 <? Z.of_nat (length valid)
                              then ndiv (ofNat c) (ofNat (length valid))
                              else ofZ 0) r /\ (0 <= r <= 1)%Q).
  { destruct (0 <? Z.of_nat (length valid)) eqn:L.
    - apply Z.ltb_lt in L.
      assert (Hlen : (0 < inject_Z (Z.of_nat (length valid)))%Q)
        by (rewrite <- (Zlt_Qlt 0); exact L).
      assert (Hcn : (0 <= inject_Z (Z.of_nat c))%Q)
        by (rewrite <- (Zle_Qle 0); lia).
      assert (Hcl : (inject_Z (Z.of_nat c) <= inject_Z (Z.of_nat (length valid)))%Q)
        by (rewrite <- Zle_Qle; lia).
      eexists. split.
      + unfold ofNat. apply val_ndiv; [apply val_ofZ | apply val_ofZ | lra].
      + split.
        * apply Qle_shift_div_l; [exact Hlen | lra].
        * apply Qle_shift_div_r; [exact Hlen | lra].
    - exists 0%Q. split; [apply val_ofZ | lra]. }
  destruct Hr as (r & Hr & Hr0 & Hr1).
  set (ratio := if 0 <? Z.of_nat (length valid) then _ else _) in *.
  pose proof (val_round1 _ _ (val_nmul _ _ _ _ Hr (val_ofZ 10))) as H6.
  change (inject_Z 10) with 10%Q in H6.
  assert (B0 : (0 <= roundTenth (r * 10))%Q) by (apply roundTenth_nonneg; lra).
  assert (B1 : (roundTenth (r * 10) <= 10)%Q).
  { pose proof (roundTenth_Z 10) as H10. change (inject_Z 10) with 10%Q in H10.
    apply Qle_trans with (roundTenth 10); [apply roundTenth_mono; lra | lra]. }
  match goal with |- context [if ?c then _ else _] => destruct c end.
  - eexists. split.
    + apply val_mathMin; [apply val_ofZ | apply val_nadd; [exact H6 | apply val_ofZ]].
    + change (inject_Z 15) with 15%Q. change (inject_Z 5) with 5%Q.
      split; [apply Q.min_glb; lra | apply Q.le_min_l].
  - eexists. split.
    + apply val_mathMin; [apply val_ofZ | exact H6].
    + change (inject_Z 15) with 15%Q.
      split; [apply Q.min_glb; lra | apply Q.le_min_l].
Qed.

(** C10.  With at most three index rows and non-negative counts of new
    highs and new lows, every factor of the breakdown lies between 0 and
    its weight, and the score lies between 0 and 100. *)
Theorem factors_within_weights
    (indices : list Row) (breadth : Breadth) (sectors : list Row) (nh nl : Q) :
  (length indices <= 3)%nat ->
  newHigh breadth = Fin nh -> (0 <= nh)%Q ->
  newLow breadth = Fin nl -> (0 <= nl)%Q ->
  let r := calcExposure indices breadth sectors in
  Forall (fun c => nle (ofZ 0) (pts c) = true /\ nle (pts c) (max c) = true)
         (components r) /\
  length (components r) = 6%nat /\
  nle (ofZ 0) (score r) = true /\ nle (score r) (ofZ 100) = true.
Proof.
  intros Hlen Eh Hh El Hl r.
  destruct (calcExposure_unfold indices breadth sectors)
    as (Hc & _ & Hs & _ & _).
  fold r in Hc, Hs.
  assert (Hlen' : (length (List.map (enrich (ofZ 1)) indices) <= 3)%nat)
    by (rewrite length_map; exact Hlen).
  destruct (ema21_range _ Hlen') as (q1 & V1 & R1).
  destruct (sma50_range _ Hlen') as (q2 & V2 & R2).
  destruct (toraku_range (orElse (toraku25 breadth) (ofZ 0))) as (q3 & V3 & R3).
  assert (V4 : val (nhNlPts EXPOSURE (orElse (newHigh breadth) (ofZ 0))
                                     (orElse (newLow breadth) (ofZ 0)))
                   (nhNlSpec nh nl)).
  { rewrite Eh, El. apply nhNlPts_val; try assumption; apply val_orElse, val_Fin. }
  pose proof (nhNlSpec_range nh nl Hh Hl) as R4.
  destruct (advPts_range (orElse (advPct breadth) (ofZ 0))) as (q5 & V5 & R5).
  destruct (sectorPts_range sectors) as (q6 & V6 & R6).
  split; [| split].
  - rewrite Hc. repeat constructor; cbn [pts max].
    all: first
      [ apply (val_nle _ _ _ _ (val_ofZ 0) V1); apply R1
      | apply (val_nle _ _ _ _ V1 (val_ofZ 35)); apply R1
      | apply (val_nle _ _ _ _ (val_ofZ 0) V2); apply R2
      | apply (val_nle _ _ _ _ V2 (val_ofZ 10)); apply R2
      | apply (val_nle _ _ _ _ (val_ofZ 0) V3); apply R3
      | apply (val_nle _ _ _ _ V3 (val_ofZ 17)); apply R3
      | apply (val_nle _ _ _ _ (val_ofZ 0) V4); apply R4
      | apply (val_nle _ _ _ _ V4 (val_ofZ 13)); apply R4
      | apply (val_nle _ _ _ _ (val_ofZ 0) V5); apply R5
      | apply (val_nle _ _ _ _ V5 (val_ofZ 10)); apply R5
      | apply (val_nle _ _ _ _ (val_ofZ 0) V6); apply R6
      | apply (val_nle _ _ _ _ V6 (val_ofZ 15)); apply R6 ].
  - rewrite Hc. reflexivity.
  - rewrite Hs. destruct (neqb _ (ofZ 0)); [split; reflexivity |].
    pose proof (val_nadd _ _ _ _
                  (val_nadd _ _ _ _
                     (val_nadd _ _ _ _
                        (val_nadd _ _ _ _
                           (val_nadd _ _ _ _
                              (val_nadd _ _ _ _ (val_ofZ 0) V1) V2) V3) V4) V5) V6)
      as Vraw.
    pose proof (val_round1 _ _ (val_mathMin _ _ _ _ (val_ofZ 100) Vraw)) as Vs.
    change (inject_Z 0) with 0%Q in Vs. change (inject_Z 100) with 100%Q in Vs.
    set (total := (0 + q1 + q2 + q3 + nhNlSpec nh nl + q5 + q6)%Q) in *.
    assert (T0 : (0 <= Qmin 100 total)%Q) by (apply Q.min_glb; unfold total; lra).
    assert (T1 : (Qmin 100 total <= 100)%Q) by apply Q.le_min_l.
    pose proof (roundTenth_nonneg _ T0) as S0.
    pose proof (roundTenth_mono _ _ T1) as S1.
    pose proof (roundTenth_Z 100) as H100. change (inject_Z 100) with 100%Q in H100.
    split.
    + apply (val_nle _ _ _ _ (val_ofZ 0) Vs). exact S0.
    + apply (val_nle _ _ _ _ Vs (val_ofZ 100)).
      change (inject_Z 100) with 100%Q. lra.
Qed.

Lemma factors_within_weights_witness :
  let r := calcExposure [bearishIndex; bearishIndex; bearishIndex]
                        strongBreadth [strongSector] in
  Forall (fun c => nle (ofZ 0) (pts c) = true /\ nle (pts c) (max c) = true)
         (components r) /\
  List.map pts (components r)
  = [ofZ 0; ofZ 10; ofZ 17; ofZ 13; ofZ 10; ofZ 15].
Proof.
  intros r.
  destruct (factors_within_weights
              [bearishIndex; bearishIndex; bearishIndex]
              strongBreadth [strongSector] 200 0) as (H & _);
    [simpl; lia | reflexivity | lra | reflexivity | lra |].
  split; [exact H | reflexivity].
Defined.

End ExposureFacts.

(** ** Strings *)

Module StringFacts.

Lemma sapp_cons (c : ascii) (s t : string) : String c s +:+ t = String c (s +:+ t).
Proof. reflexivity. Qed.

Lemma sapp_nil_l (s : string) : "" +:+ s = s.
Proof. reflexivity. Qed.

Lemma sapp_nil_r (s : string) : s +:+ "" = s.
Proof.
  induction s as [| c s IH]; [reflexivity | rewrite sapp_cons, IH; reflexivity].
Qed.

Lemma sapp_assoc (a b c : string) : (a +:+ b) +:+ c = a +:+ (b +:+ c).
Proof.
  induction a as [| x a IH]; [reflexivity | rewrite !sapp_cons, IH; reflexivity].
Qed.

Lemma ceq_eq (a b : ascii) : ceq a b = true <-> a = b.
Proof. apply Ascii.eqb_eq. Qed.

Lemma ceq_refl (a : ascii) : ceq a a = true.
Proof. apply Ascii.eqb_refl. Qed.

Lemma trimEnd_nonempty (c : ascii) (s : string) :
  isSpace c = false -> trimEnd (String c s) <> "".
Proof.
  intros H. cbn [trimEnd]. destruct (trimEnd s); [rewrite H |]; discriminate.
Qed.

Lemma trim_nonempty (c : ascii) (s : string) :
  isSpace c = false -> trim (String c s) <> "".
Proof.
  intros H. unfold trim. cbn [trimStart]. rewrite H.
  apply trimEnd_nonempty. exact H.
Qed.

End StringFacts.

(** ** The tokenizers *)

Module CsvFacts.

Import StringFacts Csv.

(** *** portfolio.js: encoded fields read back *)

(** Inside quotes [splitCsvLines] copies an escaped field and its
    closing quote as they are. *)
Lemma splitCsvLines_go_quoted (f current : string) (lines : list string) :
  Portfolio.splitCsvLines_go (escapeQuotes f +:+ String dquote "") current true lines
  = (lines, current +:+ (escapeQuotes f +:+ String dquote "")).
Proof.
  revert current. induction f as [| c f IH]; intros current.
  - reflexivity.
  - cbn [escapeQuotes]. destruct (ceq c dquote) eqn:E.
    + rewrite !sapp_cons. cbn [Portfolio.splitCsvLines_go]. rewrite !ceq_refl.
      rewrite IH, sapp_assoc. reflexivity.
    + rewrite !sapp_cons. cbn [Portfolio.splitCsvLines_go]. rewrite E.
      cbn [negb andb]. rewrite !andb_false_r. rewrite IH, sapp_assoc. reflexivity.
Qed.

(** Inside quotes [splitRow] reads an escaped field back and closes the
    quotes. *)
Lemma splitRow_go_quoted (f field : string) (fields : list string) :
  Sheets.splitRow_go (escapeQuotes f +:+ String dquote "") field true fields
  = fields ++ [field +:+ f].
Proof.
  revert field. induction f as [| c f IH]; intros field.
  - cbn. rewrite sapp_nil_r. reflexivity.
  - cbn [escapeQuotes]. destruct (ceq c dquote) eqn:E.
    + apply ceq_eq in E. subst c.
      rewrite !sapp_cons. cbn [Sheets.splitRow_go]. rewrite !ceq_refl.
      rewrite IH, sapp_assoc. reflexivity.
    + rewrite !sapp_cons. cbn [Sheets.splitRow_go]. rewrite E. cbn [negb andb].
      rewrite !andb_false_r. rewrite IH, sapp_assoc. reflexivity.
Qed.

(** The round trip through the splitters of portfolio.js: a field of any
    content, wrapped in quotes with its quotes doubled, comes back as one
    line holding one field, the original. *)
Theorem portfolio_field_round_trip (f : string) :
  Portfolio.splitCsvLines (encodeField f) = [encodeField f] /\
  Portfolio.splitRow (encodeField f) = [f] /\
  List.map Portfolio.splitRow (Portfolio.splitCsvLines (encodeField f)) = [[f]].
Proof.
  assert (H1 : Portfolio.splitCsvLines (encodeField f) = [encodeField f]).
  { unfold Portfolio.splitCsvLines, encodeField.
    cbn [Portfolio.splitCsvLines_go]. rewrite ceq_refl.
    rewrite splitCsvLines_go_quoted.
    destruct (String.eqb (trim _) "") eqn:E; [| reflexivity].
    apply String.eqb_eq in E. exfalso. revert E.
    apply (trim_nonempty dquote). reflexivity. }
  assert (H2 : Portfolio.splitRow (encodeField f) = [f]).
  { unfold Portfolio.splitRow, Sheets.splitRow, encodeField.
    cbn [Sheets.splitRow_go]. rewrite ceq_refl.
    rewrite splitRow_go_quoted. reflexivity. }
  repeat split; [exact H1 | exact H2 |].
  rewrite H1. cbn [List.map]. rewrite H2. reflexivity.
Qed.

(** A field holding a comma, an escaped quote and a newline. *)
Definition sampleField : string :=
  "a,b" +:+ String dquote "" +:+ "c" +:+ String LF "" +:+ "d".

(** C4, on the parser of sheets.js.  Its first loop drops the quote
    characters while cutting lines, so the field splitter that follows
    sees the comma of a quoted field as a separator: the encoded sample
    field comes back as the two fields [a] and [bc<LF>d], and a record
    built from it holds [a] where the field was.  The splitters of
    portfolio.js, which keep the quotes in the line, return the field. *)
Theorem sheets_quoted_field_is_split :
  List.map Sheets.splitRow (Sheets.splitLines (encodeField sampleField))
  = [["a"; "bc" +:+ String LF "" +:+ "d"]] /\
  List.map Sheets.splitRow (Sheets.splitLines (encodeField sampleField))
  <> [[sampleField]] /\
  Sheets.parseCsv ("H" +:+ String LF "" +:+ encodeField sampleField)
  = [ <["H" := JStr "a"]> ∅ ] /\
  List.map Portfolio.splitRow (Portfolio.splitCsvLines (encodeField sampleField))
  = [[sampleField]].
Proof.
  split; [vm_compute; reflexivity |].
  split; [vm_compute; discriminate |].
  split; [vm_compute; reflexivity |].
  apply portfolio_field_round_trip.
Qed.

End CsvFacts.

(** ** sheets.js: header names and cell typing *)

Module SheetsFacts.

Import StringFacts Pattern Sheets.

(** How many of the headers [pre] have the trimmed name [key]. *)
Definition countBefore (key : string) (pre : list string) : nat :=
  length (List.filter (fun h => String.eqb (trim h) key) pre).

(** The name the specification gives a header that follows [pre]: its
    trimmed name at the first occurrence, and the name with the suffix
    [_k] at the k-th. *)
Definition expectedName (pre : list string) (h : string) : string :=
  match countBefore (trim h) pre with
  | O => trim h
  | S c => trim h +:+ "_" +:+ showZ (Z.of_nat (S (S c)))
  end.

Lemma countBefore_snoc (key : string) (pre : list string) (h : string) :
  countBefore key (pre ++ [h])
  = (countBefore key pre + (if String.eqb (trim h) key then 1 else 0))%nat.
Proof.
  unfold countBefore. rewrite List.filter_app, length_app. cbn [List.filter].
  destruct (String.eqb (trim h) key); reflexivity.
Qed.

(** The state of the renaming loop after the headers [l]. *)
(** No header of the row bears the name of a member that the counter
    object inherits. *)
Definition ordinary (headers : list string) : Prop :=
  forall h, h ∈ headers -> inherited (trim h) = false.

Lemma ordinary_snoc (l : list string) (h : string) :
  ordinary (l ++ [h]) -> ordinary l /\ inherited (trim h) = false.
Proof.
  intros H. split.
  - intros x Hx. apply H. apply elem_of_app. left. exact Hx.
  - apply H. apply elem_of_app. right. apply list_elem_of_singleton. reflexivity.
Qed.

Lemma dedup_fold (l : list string) :
  ordinary l ->
  exists headerCounts out,
    fold_left dedupStep l (∅, []) = (headerCounts, out) /\
    (forall key, headerCounts !! key =
                 match countBefore key l with
                 | O => None
                 | S c => Some (CountOf (S c))
                 end) /\
    length out = length l /\
    (forall i h, l !! i = Some h ->
                 out !! i = Some (expectedName (take i l) h)).
Proof.
  induction l as [| h l IH] using rev_ind; intros Hord.
  - exists ∅, []. split; [reflexivity |]. split; [| split].
    + intros key. apply lookup_empty.
    + reflexivity.
    + intros i h H. rewrite lookup_nil in H. discriminate.
  - apply ordinary_snoc in Hord. destruct Hord as [Hl Hh].
    destruct (IH Hl) as (hc & out & Hfold & Hcount & Hlen & Hout).
    rewrite fold_left_app, Hfold. cbn [fold_left dedupStep].
    pose proof (Hcount (trim h)) as Hkey.
    assert (Hsnoc : forall i h', (l ++ [h]) !! i = Some h' ->
              (out ++ [expectedName l h]) !! i
              = Some (expectedName (take i (l ++ [h])) h')).
    { intros i h' Hi. destruct (decide (i < length l)%nat) as [Hlt | Hge].
      - rewrite lookup_app_l in Hi by exact Hlt.
        rewrite lookup_app_l by (rewrite Hlen; exact Hlt).
        rewrite take_app_le by lia. apply Hout. exact Hi.
      - assert (i = length l).
        { apply lookup_lt_Some in Hi. rewrite length_app in Hi. cbn in Hi. lia. }
        subst i. rewrite list_lookup_middle in Hi by reflexivity.
        injection Hi as <-.
        rewrite list_lookup_middle by (symmetry; exact Hlen).
        rewrite take_app_length. reflexivity. }
    assert (Hcnt : forall (k : nat) key,
              match countBefore (trim h) l with O => 1%nat | S c => S (S c) end = k ->
              <[trim h := CountOf k]> hc !! key =
              match countBefore key (l ++ [h]) with
              | O => None
              | S c => Some (CountOf (S c))
              end).
    { intros k key Hk. rewrite countBefore_snoc.
      destruct (String.eqb (trim h) key) eqn:E.
      - apply String.eqb_eq in E. subst key. rewrite lookup_insert_eq.
        destruct (countBefore (trim h) l); subst k; cbn.
        + reflexivity.
        + f_equal. f_equal. lia.
      - apply String.eqb_neq in E. rewrite lookup_insert_ne by exact E.
        rewrite Hcount. rewrite Nat.add_0_r. reflexivity. }
    unfold expectedName in Hsnoc at 1.
    destruct (countBefore (trim h) l) as [| c] eqn:Ec; rewrite Hkey.
    + rewrite Hh. eexists _, _. split; [reflexivity |]. repeat split.
      * intros key. apply Hcnt. reflexivity.
      * rewrite !length_app, Hlen. reflexivity.
      * exact Hsnoc.
    + eexists _, _. split; [reflexivity |]. repeat split.
      * intros key. apply Hcnt. reflexivity.
      * rewrite !length_app, Hlen. reflexivity.
      * exact Hsnoc.
Qed.

(** C7.  In a header row without the name of an inherited member, every
    header keeps its trimmed name at the first occurrence and gets the
    suffix [_2], [_3], ... at the later ones, the count running over the
    whole row; headers A, B, A, A become A, B, A_2, A_3.  The counter
    object inherits the members of [Object.prototype], and under their
    names the rule fails: a header named constructor becomes
    constructor_NaN at its first occurrence, constructor at the second
    and constructor_2 at the third; a header named __proto__ is renamed
    at every occurrence. *)
Theorem header_dedup_suffixes :
  (forall (headers : list string),
      ordinary headers ->
      length (uniqueHeaders headers) = length headers /\
      forall i h, headers !! i = Some h ->
                  uniqueHeaders headers !! i
                  = Some (expectedName (take i headers) h)) /\
  uniqueHeaders ["A"; "B"; "A"; "A"] = ["A"; "B"; "A_2"; "A_3"] /\
  uniqueHeaders ["constructor"] = ["constructor_NaN"] /\
  uniqueHeaders ["constructor"] <> ["constructor"] /\
  uniqueHeaders ["constructor"; "constructor"; "constructor"]
  = ["constructor_NaN"; "constructor"; "constructor_2"] /\
  uniqueHeaders ["__proto__"; "__proto__"]
  = ["__proto___[object Object]"; "__proto___[object Object]"].
Proof.
  split; [| repeat split; try reflexivity; discriminate].
  intros headers Hord. unfold uniqueHeaders.
  destruct (dedup_fold headers Hord) as (hc & out & Hfold & _ & Hlen & Hout).
  rewrite Hfold. cbn [snd]. split; assumption.
Qed.

(** The third of three columns named A is A_3. *)
Lemma header_dedup_suffixes_witness :
  ordinary [" A"; "B"; "A "; "A"] /\
  uniqueHeaders [" A"; "B"; "A "; "A"] !! 3%nat = Some "A_3".
Proof.
  assert (Hord : ordinary [" A"; "B"; "A "; "A"]).
  { intros h Hh. repeat (apply elem_of_cons in Hh; destruct Hh as [-> | Hh]);
      try reflexivity.
    apply elem_of_nil in Hh. contradiction. }
  split; [exact Hord |].
  destruct header_dedup_suffixes as (H & _).
  destruct (H [" A"; "B"; "A "; "A"] Hord) as (_ & Hi).
  rewrite (Hi 3%nat "A" eq_refl). reflexivity.
Defined.

(** *** Cell typing *)

Definition isFinite (n : number) : bool :=
  match n with Fin _ => true | _ => false end.

(** The cell is a date by its text, or a serial number under a date column. *)
Definition dateLike (h t : string) : bool :=
  ymdPrefix t || mdyPrefix4 t || (fiveDigits t && includesCI "date" h).

Lemma typeCell_cases (h v : string) :
  let t := trim v in
  (t = "" -> typeCell h v = JNull) /\
  (t <> "" -> dateLike h t = true -> typeCell h v = JStr t) /\
  (t <> "" -> dateLike h t = false ->
     typeCell h v = if isNaN (toNumberStr t) then JStr t else JNum (toNumberStr t)).
Proof.
  intros t. unfold typeCell, dateLike. fold t.
  destruct (String.eqb_spec t "") as [E | E].
  - repeat split; intros; congruence.
  - split; [congruence |].
    destruct (ymdPrefix t || mdyPrefix4 t) eqn:D; cbn [orb].
    + split; [reflexivity | discriminate].
    + destruct (fiveDigits t && includesCI "date" h) eqn:F.
      * split; [reflexivity | discriminate].
      * split; [discriminate |]. intros _ _.
        destruct (isNaN (toNumberStr t)); reflexivity.
Qed.

Lemma buildRow_snoc (unique values : list string) (h : string) :
  buildRow (unique ++ [h]) values
  = <[trim h := typeCell h (default "" (values !! length unique))]>
      (buildRow unique values).
Proof.
  unfold buildRow. rewrite imap_app, fold_left_app. cbn [imap fold_left].
  rewrite Nat.add_0_r. reflexivity.
Qed.

(** The field of the record under a column name that no later column
    repeats is the typed cell of that column. *)
Lemma buildRow_lookup (unique values : list string) (i : nat) (h : string) :
  unique !! i = Some h ->
  (forall j h', (i < j)%nat -> unique !! j = Some h' -> trim h' <> trim h) ->
  buildRow unique values !! trim h
  = Some (typeCell h (default "" (values !! i))).
Proof.
  induction unique as [| x l IH] using rev_ind; intros Hi Hlater.
  - rewrite lookup_nil in Hi. discriminate.
  - rewrite buildRow_snoc.
    destruct (decide (i < length l)%nat) as [Hlt | Hge].
    + rewrite lookup_app_l in Hi by exact Hlt.
      rewrite lookup_insert_ne.
      * apply IH; [exact Hi |].
        intros j h' Hj Hj'. apply (Hlater j h' Hj).
        rewrite lookup_app_l; [exact Hj' |]. eapply lookup_lt_Some; exact Hj'.
      * apply (Hlater (length l) x Hlt). apply list_lookup_middle. reflexivity.
    + assert (i = length l).
      { apply lookup_lt_Some in Hi. rewrite length_app in Hi. cbn in Hi. lia. }
      subst i. rewrite list_lookup_middle in Hi by reflexivity.
      injection Hi as <-. apply lookup_insert_eq.
Qed.

(** C8, as the code has it.  In the record built for a data line, the
    field of a column is [null] for a blank cell; the trimmed text for a
    cell that looks like a date, or that is five digits under a column
    whose name contains "date" in any case; and for every other cell the
    number [Number] reads from the trimmed text when that is not NaN
    (the infinities included), the trimmed text otherwise. *)
Theorem cell_typing_precedence
    (unique values : list string) (i : nat) (h : string) :
  unique !! i = Some h ->
  (forall j h', (i < j)%nat -> unique !! j = Some h' -> trim h' <> trim h) ->
  let t := trim (default "" (values !! i)) in
  let cell := buildRow unique values !! trim h in
  (t = "" -> cell = Some JNull) /\
  (t <> "" -> dateLike h t = true -> cell = Some (JStr t)) /\
  (t <> "" -> dateLike h t = false ->
     (isNaN (toNumberStr t) = false -> cell = Some (JNum (toNumberStr t))) /\
     (isNaN (toNumberStr t) = true -> cell = Some (JStr t)) /\
     ((exists n, cell = Some (JNum n)) <-> isNaN (toNumberStr t) = false)).
Proof.
  intros Hi Hlater t cell.
  assert (Hcell : cell = Some (typeCell h (default "" (values !! i))))
    by (apply buildRow_lookup; assumption).
  destruct (typeCell_cases h (default "" (values !! i))) as (H1 & H2 & H3).
  fold t in H1, H2, H3. rewrite Hcell.
  split; [| split].
  - intros E. rewrite (H1 E). reflexivity.
  - intros E D. rewrite (H2 E D). reflexivity.
  - intros E D. rewrite (H3 E D).
    destruct (isNaN (toNumberStr t)) eqn:N.
    + split; [discriminate |]. split; [reflexivity |].
      split; [intros (n & Hn); discriminate | discriminate].
    + split; [reflexivity |]. split; [discriminate |].
      split; [reflexivity | intros _; eexists; reflexivity].
Qed.

(** A line with a serial date, a decimal, a word and a blank. *)
Lemma cell_typing_precedence_witness :
  let unique := ["Date"; "Price"; "Name"; "Note"] in
  let values := ["46067"; " 12.5 "; "Toyota"; "  "] in
  buildRow unique values !! "Date" = Some (JStr "46067") /\
  buildRow unique values !! "Price" = Some (JNum (Fin (25 # 2))) /\
  buildRow unique values !! "Name" = Some (JStr "Toyota") /\
  buildRow unique values !! "Note" = Some JNull.
Proof.
  intros unique values.
  assert (Hlater : forall (i : nat) h, unique !! i = Some h ->
            forall j h', (i < j)%nat -> unique !! j = Some h' -> trim h' <> trim h).
  { intros i h Hi j h' Hj Hj'.
    destruct i as [| [| [| [| i]]]]; try discriminate;
    destruct j as [| [| [| [| j]]]]; try discriminate; try lia;
    injection Hi as <-; injection Hj' as <-; vm_compute; discriminate. }
  destruct (cell_typing_precedence unique values 0 "Date" eq_refl
              (Hlater 0%nat "Date" eq_refl)) as (_ & Hd & _).
  destruct (cell_typing_precedence unique values 1 "Price" eq_refl
              (Hlater 1%nat "Price" eq_refl)) as (_ & _ & Hp).
  destruct (cell_typing_precedence unique values 2 "Name" eq_refl
              (Hlater 2%nat "Name" eq_refl)) as (_ & _ & Hn).
  destruct (cell_typing_precedence unique values 3 "Note" eq_refl
              (Hlater 3%nat "Note" eq_refl)) as (Hb & _).
  split; [apply Hd; [discriminate | reflexivity] |].
  split; [apply Hp; [discriminate | reflexivity | reflexivity] |].
  split; [apply Hn; [discriminate | reflexivity | reflexivity] |].
  apply Hb. reflexivity.
Defined.

(** The text [Infinity] under a column X is neither blank nor a date;
    [Number] reads it as an infinite number, and the record holds that
    number: a cell is stored as a number without its conversion being
    finite. *)
Lemma infinity_cell_is_stored_as_number :
  dateLike "X" (trim "Infinity") = false /\
  isFinite (toNumberStr (trim "Infinity")) = false /\
  buildRow ["X"] ["Infinity"] !! "X" = Some (JNum PInf) /\
  parseCsv ("X" +:+ String LF "" +:+ "Infinity") = [ <["X" := JNum PInf]> ∅ ].
Proof. repeat split; vm_compute; reflexivity. Qed.

End SheetsFacts.

(** ** screener.js: reconciliation of the ALL tab *)

Module ReconcileFacts.

Import Screener.

(** What the merge leaves in each field: the value of the new row where
    the accumulated one is blank and the new one is not, the accumulated
    value everywhere else. *)
Lemma mergeMissing_lookup (existing row : Row) (k : string) :
  mergeMissing existing row !! k
  = if blankAt existing k && negb (isBlank (row !! k))
    then row !! k else existing !! k.
Proof.
  unfold mergeMissing. revert k.
  apply (map_fold_weak_ind
           (fun (r : Row) (m : Row) =>
              forall k, r !! k = if blankAt existing k && negb (isBlank (m !! k))
                                 then m !! k else existing !! k)).
  - intros k. rewrite lookup_empty. cbn. rewrite andb_false_r. reflexivity.
  - intros i x m r Hi IH k.
    pose proof (IH i) as IHi. rewrite Hi in IHi. cbn in IHi.
    rewrite andb_false_r in IHi.
    assert (Hb : blankAt r i = blankAt existing i)
      by (unfold blankAt; rewrite IHi; reflexivity).
    rewrite Hb.
    destruct (decide (i = k)) as [-> | Hne].
    + rewrite lookup_insert_eq.
      destruct (blankAt existing k && negb (isBlank (Some x))).
      * apply lookup_insert_eq.
      * exact IHi.
    + rewrite (lookup_insert_ne m) by exact Hne.
      destruct (blankAt existing i && negb (isBlank (Some x))).
      * rewrite lookup_insert_ne by exact Hne. apply IH.
      * apply IH.
Qed.

(** A field that holds a value is kept by the merge. *)
Lemma mergeMissing_keeps (existing row : Row) (k : string) (v : JsVal) :
  existing !! k = Some v -> isBlank (Some v) = false ->
  mergeMissing existing row !! k = Some v.
Proof.
  intros H Hv. rewrite mergeMissing_lookup. unfold blankAt. rewrite H, Hv.
  reflexivity.
Qed.

(** A row without a value for the field leaves it as it is. *)
Lemma mergeMissing_skips (existing row : Row) (k : string) :
  isBlank (row !! k) = true ->
  mergeMissing existing row !! k = existing !! k.
Proof.
  intros H. rewrite mergeMissing_lookup, H, andb_false_r. reflexivity.
Qed.

(** A blank field takes the value of the row. *)
Lemma mergeMissing_fills (existing row : Row) (k : string) (v : JsVal) :
  blankAt existing k = true -> row !! k = Some v -> isBlank (Some v) = false ->
  mergeMissing existing row !! k = Some v.
Proof.
  intros Hb Hr Hv. rewrite mergeMissing_lookup, Hb, Hr, Hv. reflexivity.
Qed.

(** *** A record through the rows that follow it *)

Lemma merges_keep (rows : list Row) (existing : Row) (k : string) (v : JsVal) :
  existing !! k = Some v -> isBlank (Some v) = false ->
  fold_left mergeMissing rows existing !! k = Some v.
Proof.
  revert existing. induction rows as [| r rows IH]; intros existing H Hv.
  - exact H.
  - cbn [fold_left]. apply IH; [| exact Hv].
    apply mergeMissing_keeps; assumption.
Qed.

Lemma merges_skip (rows : list Row) (existing : Row) (k : string) :
  Forall (fun r => isBlank (r !! k) = true) rows ->
  fold_left mergeMissing rows existing !! k = existing !! k.
Proof.
  revert existing. induction rows as [| r rows IH]; intros existing H.
  - reflexivity.
  - apply Forall_cons in H. destruct H as [Hr H].
    cbn [fold_left]. rewrite IH by exact H.
    apply mergeMissing_skips. exact Hr.
Qed.

Lemma blankAt_lookup (a b : Row) (k : string) :
  a !! k = b !! k -> blankAt a k = blankAt b k.
Proof. unfold blankAt. intros ->. reflexivity. Qed.

(** The first row that has a value for a blank field gives the field its
    value. *)
Lemma merges_fill (pre post : list Row) (r existing : Row) (k : string) (v : JsVal) :
  blankAt existing k = true ->
  Forall (fun r' => isBlank (r' !! k) = true) pre ->
  r !! k = Some v -> isBlank (Some v) = false ->
  fold_left mergeMissing (pre ++ r :: post) existing !! k = Some v.
Proof.
  intros Hb Hpre Hr Hv. rewrite fold_left_app. cbn [fold_left].
  apply merges_keep; [| exact Hv].
  apply mergeMissing_fills; [| exact Hr | exact Hv].
  rewrite <- Hb. apply blankAt_lookup. apply merges_skip. exact Hpre.
Qed.

(** A field of the record is the one it started with, or, if that one
    was blank, the value of one of the rows. *)
Lemma merges_only (rows : list Row) (existing : Row) (k : string) :
  fold_left mergeMissing rows existing !! k = existing !! k \/
  (blankAt existing k = true /\
   exists r, r ∈ rows /\ isBlank (r !! k) = false /\
             fold_left mergeMissing rows existing !! k = r !! k).
Proof.
  revert existing. induction rows as [| r rows IH]; intros existing.
  - left. reflexivity.
  - cbn [fold_left].
    destruct (blankAt existing k && negb (isBlank (r !! k))) eqn:E.
    + apply andb_true_iff in E. destruct E as [Hb Hr].
      apply negb_true_iff in Hr.
      assert (Hm : mergeMissing existing r !! k = r !! k)
        by (rewrite mergeMissing_lookup, Hb, Hr; reflexivity).
      right. split; [exact Hb |]. exists r.
      split; [apply elem_of_cons; left; reflexivity |].
      split; [exact Hr |].
      destruct (r !! k) as [v |] eqn:Hk; [| discriminate].
      apply merges_keep; assumption.
    + assert (Hm : mergeMissing existing r !! k = existing !! k)
        by (rewrite mergeMissing_lookup, E; reflexivity).
      destruct (IH (mergeMissing existing r)) as [H | (Hb & r' & Hin & Hr' & H)].
      * left. rewrite H. exact Hm.
      * right. split; [rewrite <- Hb; symmetry; apply blankAt_lookup; exact Hm |].
        exists r'. split; [apply elem_of_cons; right; exact Hin |].
        split; assumption.
Qed.

Section Host.

Variable hostShow : Q -> string.

(** *** What the list is to hold *)

Definition tickerOf (row : Row) : string := stripFormula hostShow (row !! "Ticker").

(** The rows of all sources in the order of the two loops, each with the
    key of its source. *)
Definition allRows (screenData : list (string * list Row)) : list (string * Row) :=
  flat_map (fun '(screenKey, rows) => List.map (pair screenKey) rows) screenData.

(** The record a row starts: the row and the key of its source. *)
Definition tagged (x : string * Row) : Row :=
  <["_screenKey" := JStr (fst x)]> (snd x).

(** The tickers in the order in which they first appear. *)
Definition firstsStep (acc : list string) (x : string * Row) : list string :=
  let t := tickerOf (snd x) in
  if String.eqb t "" then acc
  else if bool_decide (t ∈ acc) then acc else acc ++ [t].

Definition tickers (flat : list (string * Row)) : list string :=
  fold_left firstsStep flat [].

(** The rows of one ticker, in their order. *)
Definition rowsOf (t : string) (flat : list (string * Row)) : list (string * Row) :=
  List.filter (fun x => String.eqb (tickerOf (snd x)) t) flat.

(** The record of a ticker: its first row, and the rows after it merged
    into it one by one. *)
Definition mergedOf (flat : list (string * Row)) (t : string) : Row :=
  match rowsOf t flat with
  | first :: later => fold_left mergeMissing (List.map snd later) (tagged first)
  | [] => ∅
  end.

Definition reconciled (flat : list (string * Row)) : list Row :=
  List.map (mergedOf flat) (tickers flat).

(** *** The tickers and their rows *)

Lemma tickers_snoc flat x : tickers (flat ++ [x]) = firstsStep (tickers flat) x.
Proof. unfold tickers. rewrite fold_left_app. reflexivity. Qed.

Lemma rowsOf_snoc t flat x :
  rowsOf t (flat ++ [x])
  = rowsOf t flat ++ (if String.eqb (tickerOf (snd x)) t then [x] else []).
Proof.
  unfold rowsOf. rewrite List.filter_app. cbn [List.filter].
  destruct (String.eqb (tickerOf (snd x)) t); reflexivity.
Qed.

Lemma tickers_spec flat t :
  t ∈ tickers flat <-> t <> "" /\ rowsOf t flat <> [].
Proof.
  induction flat as [| x flat IH] using rev_ind.
  - cbn. split; [intros H; apply elem_of_nil in H; contradiction |].
    intros [_ H]. contradiction.
  - rewrite tickers_snoc, rowsOf_snoc. unfold firstsStep.
    destruct (String.eqb_spec (tickerOf (snd x)) "") as [E0 | N0].
    + rewrite IH. destruct (String.eqb_spec (tickerOf (snd x)) t) as [E | N].
      * subst t. split; intros [H _]; contradiction.
      * rewrite app_nil_r. reflexivity.
    + destruct (String.eqb_spec (tickerOf (snd x)) t) as [E | N].
      * subst t. split.
        -- intros _. split; [exact N0 |]. intros H.
           apply app_eq_nil in H. destruct H as [_ H]. discriminate.
        -- intros _. destruct (bool_decide_reflect (tickerOf (snd x) ∈ tickers flat));
             [assumption |].
           apply elem_of_app. right. apply list_elem_of_singleton. reflexivity.
      * rewrite app_nil_r. rewrite <- IH.
        destruct (bool_decide (tickerOf (snd x) ∈ tickers flat)); [reflexivity |].
        rewrite elem_of_app, list_elem_of_singleton. split.
        -- intros [H | H]; [exact H | congruence].
        -- intros H. left. exact H.
Qed.

Lemma tickers_NoDup flat : NoDup (tickers flat).
Proof.
  induction flat as [| x flat IH] using rev_ind.
  - constructor.
  - rewrite tickers_snoc. unfold firstsStep.
    destruct (String.eqb (tickerOf (snd x)) ""); [exact IH |].
    destruct (bool_decide_reflect (tickerOf (snd x) ∈ tickers flat)) as [Hin | Hout];
      [exact IH |].
    apply NoDup_app. split; [exact IH |]. split.
    + intros y Hy Hy'. apply list_elem_of_singleton in Hy'. subst y. contradiction.
    + apply NoDup_singleton.
Qed.

(** A row leaves the records of the other tickers as they are. *)
Lemma mergedOf_other flat x t :
  tickerOf (snd x) <> t -> mergedOf (flat ++ [x]) t = mergedOf flat t.
Proof.
  intros N. unfold mergedOf. rewrite rowsOf_snoc.
  destruct (String.eqb_spec (tickerOf (snd x)) t); [contradiction |].
  rewrite app_nil_r. reflexivity.
Qed.

(** A row of a ticker that has a record is merged into it. *)
Lemma mergedOf_again flat x :
  rowsOf (tickerOf (snd x)) flat <> [] ->
  mergedOf (flat ++ [x]) (tickerOf (snd x))
  = mergeMissing (mergedOf flat (tickerOf (snd x))) (snd x).
Proof.
  intros H. unfold mergedOf. rewrite rowsOf_snoc, String.eqb_refl.
  destruct (rowsOf (tickerOf (snd x)) flat) as [| first later]; [contradiction |].
  cbn [app]. rewrite map_app, fold_left_app. reflexivity.
Qed.

(** The first row of a ticker starts its record. *)
Lemma mergedOf_first flat x :
  rowsOf (tickerOf (snd x)) flat = [] ->
  mergedOf (flat ++ [x]) (tickerOf (snd x)) = tagged x.
Proof.
  intros H. unfold mergedOf. rewrite rowsOf_snoc, String.eqb_refl, H.
  reflexivity.
Qed.

(** *** The loop *)

Definition step (st : option (gmap string nat * list Row)) (x : string * Row)
    : option (gmap string nat * list Row) :=
  st ≫= fun s => dedupStep hostShow (fst x) s (snd x).

Lemma dedupRows_flat screenKey rows st :
  dedupRows hostShow screenKey rows st
  = fold_left step (List.map (pair screenKey) rows) st.
Proof.
  unfold dedupRows. revert st.
  induction rows as [| row rows IH]; intros st; [reflexivity |].
  cbn [List.map fold_left]. apply IH.
Qed.

Lemma dedupAll_flat screenData :
  dedupAll hostShow screenData
  = snd <$> fold_left step (allRows screenData) (Some (∅, [])).
Proof.
  unfold dedupAll. f_equal. generalize (Some (∅ : gmap string nat, [] : list Row)).
  induction screenData as [| [screenKey rows] screenData IH]; intros st.
  - reflexivity.
  - cbn [fold_left allRows flat_map]. rewrite fold_left_app, <- dedupRows_flat.
    apply IH.
Qed.

(** After any rows without an inherited ticker the list holds the record
    of every ticker, in the order of first appearance, and [seen] holds
    the place of each. *)
Lemma dedup_reachable (flat : list (string * Row)) :
  (forall x, x ∈ flat -> inherited (tickerOf (snd x)) = false) ->
  exists seen,
    fold_left step flat (Some (∅, [])) = Some (seen, reconciled flat) /\
    (forall t i, seen !! t = Some i <-> tickers flat !! i = Some t).
Proof.
  induction flat as [| x flat IH] using rev_ind; intros Hord.
  - exists ∅. split; [reflexivity |]. intros t i.
    rewrite lookup_empty. cbn. rewrite lookup_nil. split; discriminate.
  - destruct IH as (seen & Hfold & Hseen).
    { intros y Hy. apply Hord. apply elem_of_app. left. exact Hy. }
    assert (Hx : inherited (tickerOf (snd x)) = false).
    { apply Hord. apply elem_of_app. right. apply list_elem_of_singleton.
      reflexivity. }
    rewrite fold_left_app, Hfold. cbn [fold_left]. unfold step. cbn [mbind option_bind].
    unfold dedupStep. fold (tickerOf (snd x)).
    assert (Hrec : reconciled (flat ++ [x])
                   = List.map (mergedOf (flat ++ [x])) (firstsStep (tickers flat) x))
      by (unfold reconciled; rewrite tickers_snoc; reflexivity).
    rewrite Hrec, tickers_snoc. clear Hrec. unfold firstsStep.
    destruct (String.eqb_spec (tickerOf (snd x)) "") as [E0 | N0].
    + (* a row without a ticker *)
      exists seen. split; [| exact Hseen].
      f_equal. f_equal. unfold reconciled. apply map_ext_in. intros t Ht.
      symmetry. apply mergedOf_other. intros E. rewrite E0 in E. subst t.
      apply list_elem_of_In in Ht. apply tickers_spec in Ht. destruct Ht as [Ht _].
      contradiction.
    + destruct (bool_decide_reflect (tickerOf (snd x) ∈ tickers flat)) as [Hin | Hout].
      * (* a ticker that has a record *)
        pose proof Hin as Hin'.
        apply list_elem_of_lookup in Hin'. destruct Hin' as [i Hi].
        pose proof (proj2 (Hseen _ _) Hi) as Hs. rewrite Hs.
        unfold reconciled. rewrite list_lookup_fmap, Hi.
        cbn [fmap option_fmap option_map].
        exists seen. split; [| exact Hseen].
        f_equal. f_equal.
        apply list_eq. intros j.
        destruct (decide (j = i)) as [-> | Hne].
        -- rewrite list_lookup_insert_eq
             by (rewrite length_fmap; eapply lookup_lt_Some; exact Hi).
           rewrite list_lookup_fmap, Hi. cbn. f_equal. symmetry.
           apply mergedOf_again. apply tickers_spec in Hin. apply Hin.
        -- rewrite list_lookup_insert_ne by (intros E; apply Hne; symmetry; exact E).
           rewrite !list_lookup_fmap.
           destruct (tickers flat !! j) as [t |] eqn:Hj; [| reflexivity].
           cbn. f_equal. symmetry. apply mergedOf_other. intros E. subst t.
           apply Hne. exact (NoDup_lookup _ _ _ _ (tickers_NoDup flat) Hj Hi).
      * (* the first row of a ticker *)
        assert (Hnone : seen !! tickerOf (snd x) = None).
        { destruct (seen !! tickerOf (snd x)) as [i |] eqn:Hs; [| reflexivity].
          exfalso. apply Hout. apply Hseen in Hs.
          eapply list_elem_of_lookup_2. exact Hs. }
        rewrite Hnone, Hx.
        assert (Hrows : rowsOf (tickerOf (snd x)) flat = []).
        { destruct (rowsOf (tickerOf (snd x)) flat) eqn:Hr; [reflexivity |].
          exfalso. apply Hout. apply tickers_spec. split; [exact N0 |].
          rewrite Hr. discriminate. }
        exists (<[tickerOf (snd x) := length (reconciled flat)]> seen). split.
        -- f_equal. f_equal. rewrite map_app. cbn [List.map]. f_equal.
           ++ unfold reconciled. apply map_ext_in. intros t Ht.
              symmetry. apply mergedOf_other. intros E. subst t.
              apply Hout. apply list_elem_of_In. exact Ht.
           ++ f_equal. rewrite mergedOf_first by exact Hrows.
              unfold tagged. reflexivity.
        -- intros t i. unfold reconciled. rewrite length_map.
           destruct (decide (tickerOf (snd x) = t)) as [<- | Hne].
           ++ rewrite lookup_insert_eq. split.
              ** intros H. injection H as <-.
                 apply list_lookup_middle. reflexivity.
              ** intros H. f_equal.
                 destruct (decide (i < length (tickers flat))%nat) as [Hlt | Hge].
                 --- rewrite lookup_app_l in H by exact Hlt.
                     exfalso. apply Hout. eapply list_elem_of_lookup_2. exact H.
                 --- apply lookup_lt_Some in H. rewrite length_app in H.
                     cbn in H. lia.
           ++ rewrite lookup_insert_ne by exact Hne. rewrite Hseen. split.
              ** intros H. rewrite lookup_app_l; [exact H |].
                 eapply lookup_lt_Some. exact H.
              ** intros H.
                 destruct (decide (i < length (tickers flat))%nat) as [Hlt | Hge].
                 --- rewrite lookup_app_l in H by exact Hlt. exact H.
                 --- rewrite lookup_app_r in H by lia.
                     destruct (i - length (tickers flat))%nat; cbn in H;
                       [congruence | discriminate].
Qed.

End Host.

(** The two sources of the specification's example, and a row of another
    ticker that stands between them. *)
Definition sourceA : Row :=
  <["Ticker" := JStr "1234"]> (<["X" := JNull]> (<["Y" := JNum (ofZ 5)]> ∅)).

Definition sourceB : Row :=
  <["Ticker" := JStr "1234"]>
    (<["X" := JNum (ofZ 9)]> (<["Y" := JNum (ofZ 1)]> ∅)).

Definition otherTicker : Row :=
  <["Ticker" := JStr "5678"]> (<["X" := JNull]> ∅).

(** C3.  Over sources none of whose tickers is the name of an inherited
    member, the list of the ALL tab holds one record for every ticker,
    in the order in which the tickers first appear: the first row of the
    ticker with the key of its source, into which the later rows of that
    ticker, and no others, are merged one by one.  In that record a
    field that holds a value keeps it through every later row; a field
    that is blank takes the value of the first later row that has one;
    and no field changes in any other way.  For ticker 1234 with
    X = null, Y = 5 in source A and X = 9, Y = 1 in source B the merged
    record has X = 9 and Y = 5. *)
Theorem reconcile_first_source_wins (hostShow : Q -> string) :
  (forall screenData,
      (forall x, x ∈ allRows screenData ->
                 inherited (tickerOf hostShow (snd x)) = false) ->
      dedupAll hostShow screenData
      = Some (reconciled hostShow (allRows screenData))) /\
  (forall flat t first later k,
      rowsOf hostShow t flat = first :: later ->
      let merged := mergedOf hostShow flat t in
      (forall v, tagged first !! k = Some v -> isBlank (Some v) = false ->
                 merged !! k = Some v) /\
      (forall pre r post v,
          List.map snd later = pre ++ r :: post ->
          blankAt (tagged first) k = true ->
          Forall (fun r' => isBlank (r' !! k) = true) pre ->
          r !! k = Some v -> isBlank (Some v) = false ->
          merged !! k = Some v) /\
      (merged !! k = tagged first !! k \/
       (blankAt (tagged first) k = true /\
        exists r, r ∈ List.map snd later /\ isBlank (r !! k) = false /\
                  merged !! k = r !! k))) /\
  (exists merged,
      dedupAll hostShow [("A", [sourceA]); ("B", [sourceB])] = Some [merged] /\
      merged !! "X" = Some (JNum (ofZ 9)) /\
      merged !! "Y" = Some (JNum (ofZ 5))).
Proof.
  split; [| split].
  - intros screenData Hord. rewrite dedupAll_flat.
    destruct (dedup_reachable hostShow (allRows screenData) Hord) as (seen & -> & _).
    reflexivity.
  - intros flat t first later k Hrows merged.
    unfold merged, mergedOf. rewrite Hrows. split; [| split].
    + intros v Hk Hv. apply merges_keep; assumption.
    + intros pre r post v -> Hb Hpre Hr Hv. apply merges_fill; assumption.
    + apply merges_only.
  - eexists. split; [vm_compute; reflexivity |].
    split; vm_compute; reflexivity.
Qed.

(** Ticker 5678 stands between the two rows of ticker 1234: the list has
    the record of 1234 first, with X = 9 from source B and Y = 5 from
    source A, and then the record of 5678, its X still null. *)
Lemma reconcile_first_source_wins_witness :
  let screenData := [("A", [sourceA; otherTicker]); ("B", [sourceB])] in
  (forall x, x ∈ allRows screenData ->
             inherited (tickerOf (fun _ => "") (snd x)) = false) /\
  List.map (fun r : Row => (r !! "Ticker", r !! "X", r !! "Y"))
    <$> dedupAll (fun _ => "") screenData
  = Some [(Some (JStr "1234"), Some (JNum (ofZ 9)), Some (JNum (ofZ 5)));
          (Some (JStr "5678"), Some JNull, None)].
Proof.
  intros screenData.
  assert (Hord : forall x, x ∈ allRows screenData ->
                           inherited (tickerOf (fun _ => "") (snd x)) = false).
  { intros x Hx. unfold screenData, allRows in Hx.
    cbn [flat_map List.map app] in Hx.
    repeat (apply elem_of_cons in Hx; destruct Hx as [-> | Hx];
            [vm_compute; reflexivity |]).
    apply elem_of_nil in Hx. contradiction. }
  split; [exact Hord |].
  destruct (reconcile_first_source_wins (fun _ => "")) as (H & _ & _).
  rewrite (H screenData Hord). vm_compute. reflexivity.
Defined.

End ReconcileFacts.

(** ** screener.js: the header sort *)

Module SortFacts.

Import Screener NumFacts.

(** *** The order of the numbers *)

Lemma nlt_negb_nle (x y : number) :
  isNaN x = false -> isNaN y = false -> nlt y x = negb (nle x y).
Proof.
  intros Hx Hy. destruct x as [| | p |], y as [| | r |];
    try discriminate; try reflexivity.
  cbn [nlt nle]. apply eq_true_iff_eq.
  rewrite negb_true_iff, Qltb_iff, Qleb_false. tauto.
Qed.

Lemma nle_trans (x y z : number) :
  nle x y = true -> nle y z = true -> nle x z = true.
Proof.
  destruct x as [| | p |], y as [| | r |], z as [| | s |];
    try discriminate; try reflexivity.
  cbn [nle]. rewrite !Qleb_iff. intros. lra.
Qed.

Lemma nlt_asym (x y : number) : nlt x y = true -> nlt y x = false.
Proof.
  destruct x as [| | p |], y as [| | r |]; try discriminate; try reflexivity.
  cbn [nlt]. rewrite Qltb_iff, Qltb_false. intros. lra.
Qed.

(** The sign test of the comparator, ascending: [(a - b) * 1 > 0]. *)
Lemma diff_asc (a b : number) :
  isNaN a = false -> isNaN b = false ->
  ngt (nmul (nsub a b) (ofZ 1)) (ofZ 0) = nlt b a.
Proof.
  intros Ha Hb. destruct a as [| | p |], b as [| | r |];
    try discriminate; try reflexivity.
  unfold ngt, nsub, nneg, nadd, nmul, ofZ, nlt.
  apply eq_true_iff_eq. rewrite !Qltb_iff, !Qred_correct.
  change (inject_Z 0) with 0%Q. change (inject_Z 1) with 1%Q.
  split; intros; lra.
Qed.

(** The same, descending: [(a - b) * -1 > 0]. *)
Lemma diff_desc (a b : number) :
  isNaN a = false -> isNaN b = false ->
  ngt (nmul (nsub a b) (ofZ (-1))) (ofZ 0) = nlt a b.
Proof.
  intros Ha Hb. destruct a as [| | p |], b as [| | r |];
    try discriminate; try reflexivity.
  unfold ngt, nsub, nneg, nadd, nmul, ofZ, nlt.
  apply eq_true_iff_eq. rewrite !Qltb_iff, !Qred_correct.
  change (inject_Z 0) with 0%Q. change (inject_Z (-1)) with (-1 # 1)%Q.
  split; intros; lra.
Qed.

(** *** Insertion into a sorted list *)

Section Insertion.

Context {A : Type} (gt : A -> A -> bool).

(** [a] may stand before [b]. *)
Definition mayPrecede (a b : A) : Prop := gt a b = false.

Hypothesis mayPrecede_trans :
  forall a b c, mayPrecede a b -> mayPrecede b c -> mayPrecede a c.
Hypothesis gt_asym : forall a b, gt a b = true -> mayPrecede b a.

Lemma insertSorted_perm (x : A) (l : list A) : insertSorted gt x l ≡ₚ x :: l.
Proof.
  induction l as [| y l IH]; [reflexivity |].
  cbn [insertSorted]. destruct (gt x y); [| reflexivity].
  rewrite IH. apply perm_swap.
Qed.

Lemma sortWith_perm (l : list A) : sortWith gt l ≡ₚ l.
Proof.
  induction l as [| x l IH]; [reflexivity |].
  cbn [sortWith]. rewrite insertSorted_perm, IH. reflexivity.
Qed.

Lemma insertSorted_sorted (x : A) (l : list A) :
  StronglySorted mayPrecede l -> StronglySorted mayPrecede (insertSorted gt x l).
Proof.
  induction l as [| y l IH]; intros Hs.
  - repeat constructor.
  - apply StronglySorted_inv in Hs. destruct Hs as [Hl Hy].
    cbn [insertSorted]. destruct (gt x y) eqn:G.
    + constructor; [apply IH; exact Hl |].
      rewrite insertSorted_perm. constructor; [apply gt_asym; exact G | exact Hy].
    + constructor; [constructor; assumption |].
      constructor; [exact G |].
      eapply List.Forall_impl; [| exact Hy].
      intros z Hz. eapply mayPrecede_trans; [exact G | exact Hz].
Qed.

Lemma sortWith_sorted (l : list A) : StronglySorted mayPrecede (sortWith gt l).
Proof.
  induction l as [| x l IH]; [constructor |].
  cbn [sortWith]. apply insertSorted_sorted. exact IH.
Qed.

Lemma sorted_lookup (l : list A) (i j : nat) (a b : A) :
  StronglySorted mayPrecede l -> (i < j)%nat ->
  l !! i = Some a -> l !! j = Some b -> mayPrecede a b.
Proof.
  intros Hs. revert i j. induction Hs as [| x l Hl IH Hx]; intros i j Hij Hi Hj.
  - rewrite lookup_nil in Hi. discriminate.
  - destruct j as [| j]; [lia |]. cbn in Hj.
    destruct i as [| i].
    + cbn in Hi. injection Hi as <-.
      rewrite List.Forall_forall in Hx. apply Hx.
      apply list_elem_of_In. eapply list_elem_of_lookup_2. exact Hj.
    + cbn in Hi. apply (IH i j); [lia | assumption | assumption].
Qed.

End Insertion.

(** *** The comparator of a numeric column *)

Section Header.

Variable hostShow : Q -> string.
Variable localeCompare : string -> string -> Z.
Variable tm : gmap string TickerInfo.
Variable c : string.
Variable d : option SortDir.
Hypothesis numeric : isTextCol c = false.

(** The number the comparator reads from a record. *)
Definition key (r : Row) : number := parseFloat (sortValue hostShow tm c r).

Definition gtH (a b : Row) : bool :=
  ngt (headerCompare hostShow localeCompare tm c d a b) (ofZ 0).

(** [x] is not after [y] in the direction of the sort. *)
Definition inOrder (x y : number) : bool :=
  match d with
  | Some Asc => nle x y
  | _ => nle y x
  end.

Lemma gtH_cases (a b : Row) :
  gtH a b =
  if isNaN (key a) && isNaN (key b) then false
  else if isNaN (key a) then true
  else if isNaN (key b) then false
  else negb (inOrder (key a) (key b)).
Proof.
  unfold gtH, headerCompare. rewrite numeric. fold (key a) (key b).
  destruct (isNaN (key a)) eqn:Na, (isNaN (key b)) eqn:Nb; cbn [andb];
    try reflexivity.
  unfold inOrder, dirFactor. destruct d as [[|] |].
  - rewrite diff_asc by assumption. apply nlt_negb_nle; assumption.
  - rewrite diff_desc by assumption. apply nlt_negb_nle; assumption.
  - rewrite diff_desc by assumption. apply nlt_negb_nle; assumption.
Qed.

Lemma inOrder_trans (x y z : number) :
  inOrder x y = true -> inOrder y z = true -> inOrder x z = true.
Proof.
  unfold inOrder. destruct d as [[|] |]; intros H1 H2;
    eauto using nle_trans.
Qed.

Lemma inOrder_total (x y : number) :
  isNaN x = false -> isNaN y = false ->
  inOrder x y = false -> inOrder y x = true.
Proof.
  intros Hx Hy. unfold inOrder.
  destruct d as [[|] |]; intros H.
  - pose proof (nlt_negb_nle x y Hx Hy) as E. rewrite H in E. cbn in E.
    pose proof (nlt_asym _ _ E) as E'.
    rewrite (nlt_negb_nle y x Hy Hx) in E'. apply negb_false_iff in E'. exact E'.
  - pose proof (nlt_negb_nle y x Hy Hx) as E. rewrite H in E. cbn in E.
    pose proof (nlt_asym _ _ E) as E'.
    rewrite (nlt_negb_nle x y Hx Hy) in E'. apply negb_false_iff in E'. exact E'.
  - pose proof (nlt_negb_nle y x Hy Hx) as E. rewrite H in E. cbn in E.
    pose proof (nlt_asym _ _ E) as E'.
    rewrite (nlt_negb_nle x y Hx Hy) in E'. apply negb_false_iff in E'. exact E'.
Qed.

Lemma gtH_trans (a b c' : Row) :
  mayPrecede gtH a b -> mayPrecede gtH b c' -> mayPrecede gtH a c'.
Proof.
  unfold mayPrecede. rewrite !gtH_cases.
  destruct (isNaN (key a)), (isNaN (key b)), (isNaN (key c'));
    cbn [andb]; try discriminate; try reflexivity.
  rewrite !negb_false_iff. apply inOrder_trans.
Qed.

Lemma gtH_asym (a b : Row) : gtH a b = true -> mayPrecede gtH b a.
Proof.
  unfold mayPrecede. rewrite !gtH_cases.
  destruct (isNaN (key a)) eqn:Na, (isNaN (key b)) eqn:Nb;
    cbn [andb]; try discriminate; try reflexivity.
  rewrite negb_true_iff, negb_false_iff. apply inOrder_total; assumption.
Qed.

(** The rows after the header sort. *)
Definition sorted (data : list Row) : list Row :=
  sortBy (headerCompare hostShow localeCompare tm c d) data.

Lemma sorted_is_ordered (data : list Row) :
  StronglySorted (mayPrecede gtH) (sorted data).
Proof. apply sortWith_sorted; [exact gtH_trans | exact gtH_asym]. Qed.

Lemma ordered_lookup (out : list Row) (i j : nat) (a b : Row) :
  StronglySorted (mayPrecede gtH) out ->
  (i < j)%nat -> out !! i = Some a -> out !! j = Some b ->
  (isNaN (key a) = true -> isNaN (key b) = true) /\
  (isNaN (key b) = false ->
   isNaN (key a) = false /\ inOrder (key a) (key b) = true).
Proof.
  intros Hs Hij Hi Hj.
  pose proof (sorted_lookup gtH out i j a b Hs Hij Hi Hj) as H.
  unfold mayPrecede in H. rewrite gtH_cases in H.
  destruct (isNaN (key a)), (isNaN (key b)); cbn [andb] in H;
    try discriminate; split; try congruence; try reflexivity.
  intros _. split; [reflexivity |]. apply negb_false_iff. exact H.
Qed.

End Header.

Definition rowV (v : JsVal) : Row := <["v" := v]> ∅.

(** C6.  The comparator of a column that is not a text column reads both
    sides as numbers.  In every list ordered by it, whatever the
    direction, no row whose value does not parse stands before one whose
    value does, and the rows whose values parse stand in the order of the
    direction; the header sort returns such a list, a permutation of the
    rows; the values 3, null, 1 sort to 1, 3, null ascending and to
    3, 1, null descending. *)
Theorem header_sort_nan_last
    (hostShow : Q -> string) (localeCompare : string -> string -> Z)
    (tm : gmap string TickerInfo) :
  (forall (c : string) (d : option SortDir) (out : list Row),
      isTextCol c = false ->
      StronglySorted (mayPrecede (gtH hostShow localeCompare tm c d)) out ->
      forall (i j : nat) (a b : Row),
        (i < j)%nat -> out !! i = Some a -> out !! j = Some b ->
        (isNaN (key hostShow tm c a) = true ->
         isNaN (key hostShow tm c b) = true) /\
        (isNaN (key hostShow tm c b) = false ->
         isNaN (key hostShow tm c a) = false /\
         inOrder d (key hostShow tm c a) (key hostShow tm c b) = true)) /\
  (forall (c : string) (d : option SortDir) (data : list Row),
      isTextCol c = false ->
      sorted hostShow localeCompare tm c d data ≡ₚ data /\
      StronglySorted (mayPrecede (gtH hostShow localeCompare tm c d))
                     (sorted hostShow localeCompare tm c d data)) /\
  sorted hostShow localeCompare tm "v" (Some Asc)
    [rowV (JNum (ofZ 3)); rowV JNull; rowV (JNum (ofZ 1))]
  = [rowV (JNum (ofZ 1)); rowV (JNum (ofZ 3)); rowV JNull] /\
  sorted hostShow localeCompare tm "v" (Some Desc)
    [rowV (JNum (ofZ 3)); rowV JNull; rowV (JNum (ofZ 1))]
  = [rowV (JNum (ofZ 3)); rowV (JNum (ofZ 1)); rowV JNull].
Proof.
  split; [| split; [| split; vm_compute; reflexivity]].
  - intros c d out Hc Hs i j a b.
    exact (ordered_lookup hostShow localeCompare tm c d Hc out i j a b Hs).
  - intros c d data Hc. split.
    + apply sortWith_perm.
    + apply sorted_is_ordered. exact Hc.
Qed.

(** In the descending sort of 3, null, 1 the missing value stands last. *)
Lemma header_sort_nan_last_witness :
  let out := sorted (fun _ => "") (fun _ _ => 0) ∅ "v" (Some Desc)
               [rowV (JNum (ofZ 3)); rowV JNull; rowV (JNum (ofZ 1))] in
  out !! 2%nat = Some (rowV JNull) /\
  isNaN (key (fun _ => "") ∅ "v" (rowV (JNum (ofZ 1)))) = false /\
  inOrder (Some Desc) (key (fun _ => "") ∅ "v" (rowV (JNum (ofZ 3))))
                      (key (fun _ => "") ∅ "v" (rowV (JNum (ofZ 1)))) = true.
Proof.
  intros out.
  destruct (header_sort_nan_last (fun _ => "") (fun _ _ => 0) ∅)
    as (Hord & Hsort & _).
  destruct (Hsort "v" (Some Desc)
              [rowV (JNum (ofZ 3)); rowV JNull; rowV (JNum (ofZ 1))] eq_refl)
    as (_ & Hs).
  destruct (Hord "v" (Some Desc) _ eq_refl Hs 0%nat 1%nat
              (rowV (JNum (ofZ 3))) (rowV (JNum (ofZ 1))))
    as (_ & H); [lia | reflexivity | reflexivity |].
  destruct (H eq_refl) as (_ & Hin).
  split; [reflexivity |]. split; [reflexivity | exact Hin].
Defined.

End SortFacts.

(** ** market.js: the short date label *)

Module MarketFacts.

Import StringFacts Pattern Market.

(** *** Characters *)

(** Every character of [s] passes the test [p]. *)
Fixpoint allChars (p : ascii -> bool) (s : string) : bool :=
  match s with
  | EmptyString => true
  | String c r => p c && allChars p r
  end.

Definition notSpace (c : ascii) : bool := negb (isSpace c).
Definition notSlash (c : ascii) : bool := negb (ceq c "/").

(** One or two digits. *)
Definition isD12 (s : string) : bool :=
  match s with
  | String a EmptyString => isDigit a
  | String a (String b EmptyString) => isDigit a && isDigit b
  | _ => false
  end.

Lemma allChars_app (p : ascii -> bool) (a b : string) :
  allChars p (a +:+ b) = allChars p a && allChars p b.
Proof.
  induction a as [| c a IH]; [reflexivity |].
  rewrite sapp_cons. cbn [allChars]. rewrite IH, andb_assoc. reflexivity.
Qed.

Lemma allChars_impl (p q : ascii -> bool) (s : string) :
  (forall c, p c = true -> q c = true) ->
  allChars p s = true -> allChars q s = true.
Proof.
  intros Hpq. induction s as [| c s IH]; [reflexivity |].
  cbn [allChars]. rewrite !andb_true_iff. intros [H1 H2].
  split; [apply Hpq; exact H1 | apply IH; exact H2].
Qed.

(** What being a digit excludes and gives. *)
Lemma digit_facts (c : ascii) :
  isDigit c = true ->
  isSpace c = false /\ ceq c "/" = false /\ ceq c "-" = false /\
  ceq c "+" = false /\ isCharOf "x" "X" c = false /\
  hexVal c = Some (digitVal c) /\ 0 <= digitVal c <= 9.
Proof.
  destruct c as [[] [] [] [] [] [] [] []]; intros H; try discriminate H;
    vm_compute; repeat split; congruence.
Qed.

Lemma digit_notSpace (c : ascii) : isDigit c = true -> notSpace c = true.
Proof.
  intros H. unfold notSpace. destruct (digit_facts c H) as (-> & _). reflexivity.
Qed.

Lemma digit_notSlash (c : ascii) : isDigit c = true -> notSlash c = true.
Proof.
  intros H. unfold notSlash.
  destruct (digit_facts c H) as (_ & -> & _). reflexivity.
Qed.

(** *** Trimming *)

Lemma trimEnd_idem (s : string) : trimEnd (trimEnd s) = trimEnd s.
Proof.
  induction s as [| c s IH]; [reflexivity |].
  cbn [trimEnd]. destruct (trimEnd s) as [| c' r'] eqn:E.
  - destruct (isSpace c) eqn:Sp; [reflexivity |].
    cbn [trimEnd]. rewrite Sp. reflexivity.
  - change (trimEnd (String c (String c' r')))
      with (match trimEnd (String c' r') with
            | EmptyString => if isSpace c then EmptyString else String c EmptyString
            | r'' => String c r''
            end).
    rewrite IH. reflexivity.
Qed.

(** The first character left by [trimStart], if any, is not a space, and
    [trimEnd] keeps such a first character. *)
Definition headNotSpace (s : string) : bool :=
  match s with
  | EmptyString => true
  | String c _ => notSpace c
  end.

Lemma trimStart_head (s : string) : headNotSpace (trimStart s) = true.
Proof.
  induction s as [| c s IH]; [reflexivity |].
  cbn [trimStart]. destruct (isSpace c) eqn:Sp; [exact IH |].
  cbn [headNotSpace]. unfold notSpace. rewrite Sp. reflexivity.
Qed.

Lemma trimEnd_head (s : string) :
  headNotSpace s = true -> headNotSpace (trimEnd s) = true.
Proof.
  destruct s as [| c s]; [reflexivity |].
  cbn [headNotSpace trimEnd]. intros H.
  destruct (trimEnd s).
  - unfold notSpace in H. apply negb_true_iff in H. rewrite H.
    cbn [headNotSpace]. unfold notSpace. rewrite H. reflexivity.
  - exact H.
Qed.

Lemma trimStart_fixed (s : string) : headNotSpace s = true -> trimStart s = s.
Proof.
  destruct s as [| c s]; [reflexivity |].
  cbn [headNotSpace trimStart]. unfold notSpace. intros H.
  apply negb_true_iff in H. rewrite H. reflexivity.
Qed.

Lemma trim_idem (s : string) : trim (trim s) = trim s.
Proof.
  unfold trim.
  rewrite (trimStart_fixed (trimEnd (trimStart s)))
    by (apply trimEnd_head, trimStart_head).
  apply trimEnd_idem.
Qed.

Lemma trimEnd_noSpace (s : string) : allChars notSpace s = true -> trimEnd s = s.
Proof.
  induction s as [| c s IH]; [reflexivity |].
  cbn [allChars trimEnd]. rewrite andb_true_iff. intros [Hc Hs].
  rewrite (IH Hs). destruct s; [| reflexivity].
  unfold notSpace in Hc. apply negb_true_iff in Hc. rewrite Hc. reflexivity.
Qed.

Lemma trim_noSpace (s : string) : allChars notSpace s = true -> trim s = s.
Proof.
  intros H. unfold trim. rewrite trimStart_fixed.
  - apply trimEnd_noSpace. exact H.
  - destruct s as [| c s]; [reflexivity |].
    cbn [allChars] in H. apply andb_true_iff in H. apply H.
Qed.

(** *** The shapes the patterns recognise *)

Lemma digits12Then_inv (sep : ascii) (s r : string) :
  digits12Then sep s = Some r ->
  exists A, isD12 A = true /\ s = A +:+ String sep r.
Proof.
  unfold digits12Then.
  destruct s as [| a [| b s]]; try discriminate.
  destruct (isDigit a) eqn:Da; [| discriminate].
  destruct (ceq b sep) eqn:Eb.
  - intros [= <-]. apply ceq_eq in Eb. subst b.
    exists (String a ""). split; [exact Da | reflexivity].
  - destruct (isDigit b) eqn:Db; [| discriminate].
    destruct s as [| c s]; [discriminate |].
    destruct (ceq c sep) eqn:Ec; [| discriminate].
    intros [= <-]. apply ceq_eq in Ec. subst c.
    exists (String a (String b "")). split; [| reflexivity].
    cbn [isD12]. rewrite Da, Db. reflexivity.
Qed.

Lemma digits12Then_app (sep : ascii) (A r : string) :
  isDigit sep = false -> isD12 A = true ->
  digits12Then sep (A +:+ String sep r) = Some r.
Proof.
  intros Hsep HA. destruct A as [| a [| b [| c A]]]; try discriminate HA.
  - cbn [isD12] in HA. rewrite sapp_cons, sapp_nil_l.
    unfold digits12Then. rewrite HA, ceq_refl. reflexivity.
  - cbn [isD12] in HA. apply andb_true_iff in HA. destruct HA as [Da Db].
    rewrite !sapp_cons, sapp_nil_l. unfold digits12Then. rewrite Da, Db.
    assert (E : ceq b sep = false).
    { destruct (ceq b sep) eqn:E; [| reflexivity].
      apply ceq_eq in E. subst b. congruence. }
    rewrite E, ceq_refl. reflexivity.
Qed.

(** A text with no slash does not start with digits and a slash. *)
Lemma digits12Then_noSlash (s : string) :
  allChars notSlash s = true -> digits12Then "/" s = None.
Proof.
  unfold digits12Then. destruct s as [| a [| b s]]; try reflexivity.
  cbn [allChars]. rewrite !andb_true_iff. intros (Ha & Hb & Hs).
  unfold notSlash in Hb. apply negb_true_iff in Hb. rewrite Hb.
  destruct (isDigit a); [| reflexivity].
  destruct (isDigit b); [| reflexivity].
  destruct s as [| c s]; [reflexivity |].
  cbn [allChars] in Hs. apply andb_true_iff in Hs. destruct Hs as [Hc _].
  unfold notSlash in Hc. apply negb_true_iff in Hc. rewrite Hc. reflexivity.
Qed.

Lemma isD12_chars (A : string) :
  isD12 A = true -> allChars isDigit A = true /\ A <> "".
Proof.
  destruct A as [| a [| b [| c A]]]; try discriminate; cbn [isD12 allChars].
  - intros ->. split; [reflexivity | discriminate].
  - intros H. apply andb_true_iff in H. destruct H as [-> ->].
    split; [reflexivity | discriminate].
Qed.

(** A label of two short numbers is a short label. *)
Lemma shortMd_app (A B : string) :
  isD12 A = true -> isD12 B = true -> shortMd (A +:+ String "/" B) = true.
Proof.
  intros HA HB. unfold shortMd.
  rewrite digits12Then_app by (reflexivity || exact HA).
  destruct B as [| a [| b [| c B]]]; try discriminate HB; exact HB.
Qed.

Lemma shortMd_inv (s : string) :
  shortMd s = true ->
  exists A B, isD12 A = true /\ isD12 B = true /\ s = A +:+ String "/" B.
Proof.
  unfold shortMd. destruct (digits12Then "/" s) as [r |] eqn:E; [| discriminate].
  destruct (digits12Then_inv _ _ _ E) as (A & HA & ->).
  intros H. exists A, r. split; [exact HA |]. split; [| reflexivity].
  destruct r as [| a [| b [| c r]]]; try discriminate H; exact H.
Qed.

(** *** Splitting *)

Lemma splitOn_go_prefix (sep : ascii) (A rest cur : string) :
  allChars (fun c => negb (ceq c sep)) A = true ->
  splitOn_go sep (A +:+ String sep rest) cur
  = (cur +:+ A) :: splitOn_go sep rest "".
Proof.
  revert cur. induction A as [| c A IH]; intros cur H.
  - rewrite sapp_nil_l, sapp_nil_r. cbn [splitOn_go]. rewrite ceq_refl. reflexivity.
  - cbn [allChars] in H. apply andb_true_iff in H. destruct H as [Hc HA].
    apply negb_true_iff in Hc.
    rewrite sapp_cons. cbn [splitOn_go]. rewrite Hc, (IH _ HA), sapp_assoc.
    reflexivity.
Qed.

Lemma splitOn_prefix (sep : ascii) (A rest : string) :
  allChars (fun c => negb (ceq c sep)) A = true ->
  splitOn sep (A +:+ String sep rest) = A :: splitOn sep rest.
Proof. intros H. unfold splitOn. rewrite splitOn_go_prefix by exact H. reflexivity. Qed.

Lemma splitOn_go_nonempty (sep : ascii) (s cur : string) :
  exists x xs, splitOn_go sep s cur = x :: xs.
Proof.
  revert cur. induction s as [| c s IH]; intros cur.
  - eexists _, _. reflexivity.
  - cbn [splitOn_go]. destruct (ceq c sep); [eexists _, _; reflexivity | apply IH].
Qed.

Lemma digitsN_inv (n : nat) (s r : string) :
  digitsN n s = Some r ->
  exists Y, allChars isDigit Y = true /\ s = Y +:+ r.
Proof.
  revert s. induction n as [| n IH]; intros s H.
  - cbn in H. injection H as <-. exists "". split; reflexivity.
  - destruct s as [| c s]; [discriminate |]. cbn [digitsN] in H.
    destruct (isDigit c) eqn:D; [| discriminate].
    destruct (IH _ H) as (Y & HY & ->).
    exists (String c Y). split; [| reflexivity].
    cbn [allChars]. rewrite D, HY. reflexivity.
Qed.

(** A text that starts with one or two digits and a slash is neither
    four nor five digits long at its front. *)
Lemma digitsN_short (k : nat) (A r : string) :
  isD12 A = true -> digitsN (S (S (S k))) (A +:+ String "/" r) = None.
Proof.
  intros HA. destruct A as [| a [| b [| c A]]]; try discriminate HA.
  - cbn [isD12] in HA. rewrite sapp_cons, sapp_nil_l.
    cbn [digitsN]. rewrite HA. reflexivity.
  - cbn [isD12] in HA. apply andb_true_iff in HA. destruct HA as [Da Db].
    rewrite !sapp_cons, sapp_nil_l. cbn [digitsN]. rewrite Da, Db.
    reflexivity.
Qed.

(** *** Reading and printing small numbers *)

Lemma parseInt_D12 (A : string) :
  isD12 A = true -> exists a, 0 <= a <= 99 /\ parseIntStr A = ofZ a.
Proof.
  intros HA. destruct A as [| a [| b [| c A]]]; try discriminate HA.
  - cbn [isD12] in HA.
    destruct (digit_facts a HA) as (Sp & _ & Mi & Pl & _ & Hx & Hr).
    exists (digitVal a). split; [lia |].
    unfold parseIntStr. cbn [trimStart]. rewrite Sp, Mi, Pl.
    cbn [readDigits]. rewrite Hx.
    replace (digitVal a <? 10) with true by (symmetry; apply Z.ltb_lt; lia).
    cbn [readDigits].
    match goal with |- (if ?t then _ else _) = _ => change t with false end.
    cbv iota. apply (f_equal ofZ). lia.
  - cbn [isD12] in HA. apply andb_true_iff in HA. destruct HA as [Da Db].
    destruct (digit_facts a Da) as (Sp & _ & Mi & Pl & _ & Hx & Hr).
    destruct (digit_facts b Db) as (_ & _ & _ & _ & Xb & Hxb & Hrb).
    exists (10 * digitVal a + digitVal b). split; [lia |].
    unfold parseIntStr. cbn [trimStart]. rewrite Sp, Mi, Pl, Xb, andb_false_r.
    cbn [readDigits]. rewrite Hx.
    replace (digitVal a <? 10) with true by (symmetry; apply Z.ltb_lt; lia).
    rewrite Hxb.
    replace (digitVal b <? 10) with true by (symmetry; apply Z.ltb_lt; lia).
    cbn [readDigits].
    match goal with |- (if ?t then _ else _) = _ => change t with false end.
    cbv iota. apply (f_equal ofZ). lia.
Qed.

Lemma digitsN_cons (n : nat) (s r : string) :
  digitsN (S n) s = Some r ->
  exists c s', s = String c s' /\ isDigit c = true /\ digitsN n s' = Some r.
Proof.
  destruct s as [| c s']; [discriminate |]. cbn [digitsN].
  destruct (isDigit c) eqn:D; [| discriminate].
  intros H. exists c, s'. repeat split; assumption.
Qed.

Lemma parseInt_digits5 (s : string) :
  fiveDigits s = true -> exists n, 0 <= n /\ parseIntStr s = ofZ n.
Proof.
  unfold fiveDigits. destruct (digitsN 5 s) as [[| ? ?] |] eqn:E; try discriminate.
  intros _.
  apply digitsN_cons in E. destruct E as (a & s1 & -> & Da & E).
  apply digitsN_cons in E. destruct E as (b & s2 & -> & Db & E).
  apply digitsN_cons in E. destruct E as (c & s3 & -> & Dc & E).
  apply digitsN_cons in E. destruct E as (d & s4 & -> & Dd & E).
  apply digitsN_cons in E. destruct E as (e & s5 & -> & De & E).
  cbn [digitsN] in E. injection E as ->.
  destruct (digit_facts a Da) as (Sp & _ & Mi & Pl & _ & Ha & Ra).
  destruct (digit_facts b Db) as (_ & _ & _ & _ & Xb & Hb & Rb).
  destruct (digit_facts c Dc) as (_ & _ & _ & _ & _ & Hc & Rc).
  destruct (digit_facts d Dd) as (_ & _ & _ & _ & _ & Hd & Rd).
  destruct (digit_facts e De) as (_ & _ & _ & _ & _ & He & Re).
  exists (10 * (10 * (10 * (10 * digitVal a + digitVal b) + digitVal c)
                 + digitVal d) + digitVal e).
  split; [lia |].
  unfold parseIntStr. cbn [trimStart]. rewrite Sp, Mi, Pl, Xb, andb_false_r.
  cbn [readDigits]. rewrite Ha, Hb, Hc, Hd, He.
  replace (digitVal a <? 10) with true by (symmetry; apply Z.ltb_lt; lia).
  replace (digitVal b <? 10) with true by (symmetry; apply Z.ltb_lt; lia).
  replace (digitVal c <? 10) with true by (symmetry; apply Z.ltb_lt; lia).
  replace (digitVal d <? 10) with true by (symmetry; apply Z.ltb_lt; lia).
  replace (digitVal e <? 10) with true by (symmetry; apply Z.ltb_lt; lia).
  cbn [readDigits].
  match goal with |- (if ?t then _ else _) = _ => change t with false end.
  cbv iota. apply (f_equal ofZ). lia.
Qed.

(** The month lies in 1..12 and the day in 1..31 for every day number. *)
Lemma civilFromDays_range (z : Z) :
  let '(_, m, d) := civilFromDays z in 1 <= m <= 12 /\ 1 <= d <= 31.
Proof.
  unfold civilFromDays. cbv zeta. Z.div_mod_to_equations.
  destruct (_ <? 10) eqn:E; [apply Z.ltb_lt in E | apply Z.ltb_ge in E]; lia.
Qed.

Lemma uint_digits (d : Decimal.uint) :
  allChars isDigit (NilEmpty.string_of_uint d) = true.
Proof. induction d; cbn; auto. Qed.

Lemma showZ_chars (z : Z) :
  allChars (fun c => isDigit c || ceq c "-") (showZ z) = true.
Proof.
  unfold showZ, NilZero.string_of_int.
  assert (H : forall d, allChars (fun c => isDigit c || ceq c "-")
                          (NilZero.string_of_uint d) = true).
  { intros d. unfold NilZero.string_of_uint.
    destruct d; try reflexivity;
      (eapply allChars_impl; [| apply uint_digits];
       intros c Hc; rewrite Hc; reflexivity). }
  destruct (Z.to_int z); [apply H |].
  cbn [allChars]. rewrite H. reflexivity.
Qed.

(** The characters of the decimal form of a finite number. *)
Definition numChar (c : ascii) : bool :=
  isDigit c || ceq c "." || ceq c "e" || ceq c "+" || ceq c "-".

Lemma numChar_plain (c : ascii) :
  numChar c = true -> notSlash c = true /\ notSpace c = true.
Proof.
  destruct c as [[] [] [] [] [] [] [] []]; intros H; try discriminate H;
    split; reflexivity.
Qed.

(** No pattern of the function matches: the input is left to the host's
    date parser. *)
Definition noPattern (t : string) : bool :=
  negb (fiveDigits t) && negb (ymdPrefix t) && negb (mdyPrefix2 t)
  && negb (shortMd t).

Section Host.

Variable hostShow : Q -> string.
Variable hostDate : string -> option (Z * Z).

Abbreviation show := (Market.show hostShow).
Abbreviation label := (fun s => formatDateLabel hostShow hostDate (Some (JStr s))).

(** What is assumed of the host: the decimal form of a number is made of
    digits, point, exponent mark and signs; a date it reads has its month
    in 0..11 and its day in 1..31; and its date parser reads no date from
    two numbers around a slash unless they form a short label, as for
    3/789 or 3/NaN. *)
Hypothesis hostShow_chars : forall q, allChars numChar (hostShow q) = true.
Hypothesis hostDate_range :
  forall s m d, hostDate s = Some (m, d) -> 0 <= m <= 11 /\ 1 <= d <= 31.
Hypothesis hostDate_rejects :
  forall (a : Z) (n : number),
    0 <= a <= 99 ->
    shortMd (show (ofZ a) +:+ "/" +:+ show n) = false ->
    hostDate (show (ofZ a) +:+ "/" +:+ show n) = None.

Lemma showZ_plain (z : Z) :
  allChars notSlash (showZ z) = true /\ allChars notSpace (showZ z) = true.
Proof.
  pose proof (showZ_chars z) as H.
  split; (eapply allChars_impl; [| exact H]); intros c Hc;
    apply numChar_plain; unfold numChar;
    apply orb_true_iff in Hc; destruct Hc as [-> | ->];
    rewrite ?orb_true_r; reflexivity.
Qed.

Lemma show_plain (n : number) :
  allChars notSlash (show n) = true /\ allChars notSpace (show n) = true.
Proof.
  unfold Market.show, numToString. destruct n as [| | q |];
    try (split; reflexivity).
  destruct (safeInteger q); [apply showZ_plain |].
  split; (eapply allChars_impl; [| apply hostShow_chars]); intros c Hc;
    apply numChar_plain; exact Hc.
Qed.

Lemma show_small (a : Z) : 0 <= a <= 99 -> isD12 (show (ofZ a)) = true.
Proof.
  intros Ha.
  assert (H : forallb (fun k => isD12 (show (ofZ (Z.of_nat k)))) (seq 0 100) = true)
    by (vm_compute; reflexivity).
  rewrite forallb_forall in H.
  specialize (H (Z.to_nat a)). rewrite Z2Nat.id in H by lia.
  apply H. apply in_seq. lia.
Qed.

(** The second pass over a label of one or two digits, a slash and a
    plain tail. *)
Lemma label_fixed (A B : string) :
  isD12 A = true ->
  allChars notSlash B = true -> allChars notSpace B = true ->
  (shortMd (A +:+ String "/" B) = false ->
   hostDate (A +:+ String "/" B) = None) ->
  label (A +:+ String "/" B) = A +:+ String "/" B.
Proof.
  intros HA Hslash Hspace Hhost.
  destruct (isD12_chars A HA) as [HAd HAne].
  assert (Htrim : trim (A +:+ String "/" B) = A +:+ String "/" B).
  { apply trim_noSpace. rewrite allChars_app. cbn [allChars].
    rewrite Hspace, (allChars_impl isDigit notSpace A digit_notSpace HAd).
    reflexivity. }
  unfold formatDateLabel.
  assert (Ht : truthy (Some (JStr (A +:+ String "/" B))) = true).
  { destruct A as [| a A]; [congruence | reflexivity]. }
  rewrite Ht. cbn [negb toStr]. rewrite Htrim.
  unfold fiveDigits, ymdPrefix, mdyPrefix2, mdSlash.
  rewrite (digitsN_short 2 A B HA), (digitsN_short 1 A B HA).
  rewrite digits12Then_app by (reflexivity || exact HA).
  rewrite (digits12Then_noSlash B Hslash).
  destruct (shortMd (A +:+ String "/" B)) eqn:Sh; [reflexivity |].
  rewrite (Hhost eq_refl). reflexivity.
Qed.

Lemma numbers_label_fixed (a : Z) (n : number) :
  0 <= a <= 99 ->
  label (show (ofZ a) +:+ "/" +:+ show n) = show (ofZ a) +:+ "/" +:+ show n.
Proof.
  intros Ha. destruct (show_plain n) as [H1 H2].
  change (show (ofZ a) +:+ "/" +:+ show n)
    with (show (ofZ a) +:+ String "/" (show n)).
  apply label_fixed; try assumption.
  - apply show_small. exact Ha.
  - intros Sh. apply (hostDate_rejects a n Ha). exact Sh.
Qed.

Lemma short_label_fixed (t : string) : shortMd t = true -> label t = t.
Proof.
  intros Sh. destruct (shortMd_inv t Sh) as (A & B & HA & HB & ->).
  destruct (isD12_chars B HB) as [HBd _].
  apply label_fixed.
  - exact HA.
  - exact (allChars_impl isDigit notSlash B digit_notSlash HBd).
  - exact (allChars_impl isDigit notSpace B digit_notSpace HBd).
  - intros C. congruence.
Qed.

(** *** The label of each branch *)

Lemma daysFromCivil_linear (y m d k : Z) :
  daysFromCivil y m (d + k) = daysFromCivil y m d + k.
Proof. unfold daysFromCivil. cbv zeta. lia. Qed.

Lemma serial_label (t : string) :
  fiveDigits t = true ->
  exists k y m d,
    0 <= k /\ parseIntStr t = ofZ k /\
    civilFromDays (daysFromCivil 1899 12 30 + k) = (y, m, d) /\
    1 <= m <= 12 /\ 1 <= d <= 31 /\
    serialLabel hostShow t = show (ofZ m) +:+ "/" +:+ show (ofZ d).
Proof.
  intros H. destruct (parseInt_digits5 t H) as (k & Hk & Hp).
  pose proof (civilFromDays_range (daysFromCivil 1899 12 30 + k)) as Hr.
  destruct (civilFromDays (daysFromCivil 1899 12 30 + k)) as [[y m] d] eqn:E.
  exists k, y, m, d. repeat split; try assumption; try apply Hr.
  unfold serialLabel. rewrite Hp. unfold ofZ at 1. rewrite Qfloor_Z.
  rewrite daysFromCivil_linear, E.
  replace (m - 1 + 1) with m by lia. reflexivity.
Qed.

Lemma digits_noSep (sep : ascii) (A : string) :
  isDigit sep = false -> allChars isDigit A = true ->
  allChars (fun c => negb (ceq c sep)) A = true.
Proof.
  intros Hsep. apply allChars_impl. intros c Hc.
  destruct (ceq c sep) eqn:E; [| reflexivity].
  apply ceq_eq in E. subst c. congruence.
Qed.

Lemma ymd_label (t : string) :
  ymdPrefix t = true ->
  exists a n, 0 <= a <= 99 /\
    partsLabel hostShow (splitOn "-" t) 1 2 = show (ofZ a) +:+ "/" +:+ show n.
Proof.
  unfold ymdPrefix.
  destruct (digitsN 4 t) as [[| c r] |] eqn:E; try discriminate.
  rewrite andb_true_iff. intros [Hc Hr]. apply ceq_eq in Hc. subst c.
  destruct (digits12Then "-" r) as [r' |] eqn:E2; [| discriminate].
  destruct (digitsN_inv _ _ _ E) as (Y & HY & ->).
  destruct (digits12Then_inv _ _ _ E2) as (M & HM & ->).
  destruct (isD12_chars M HM) as [HMd _].
  destruct (parseInt_D12 M HM) as (a & Ha & Hp).
  destruct (splitOn_go_nonempty "-" r' "") as (x & xs & Hx).
  exists a, (parseIntStr x). split; [exact Ha |].
  rewrite (splitOn_prefix "-" Y) by (apply digits_noSep; [reflexivity | exact HY]).
  rewrite (splitOn_prefix "-" M) by (apply digits_noSep; [reflexivity | exact HMd]).
  unfold splitOn. rewrite Hx. unfold partsLabel.
  cbn [lookup list_lookup default from_option id]. rewrite Hp. reflexivity.
Qed.

Lemma mdy_label (t : string) :
  mdyPrefix2 t = true ->
  exists a b, 0 <= a <= 99 /\ 0 <= b <= 99 /\
    partsLabel hostShow (splitOn "/" t) 0 1
    = show (ofZ a) +:+ "/" +:+ show (ofZ b).
Proof.
  unfold mdyPrefix2, mdSlash.
  destruct (digits12Then "/" t) as [r |] eqn:E; [| discriminate].
  destruct (digits12Then "/" r) as [r' |] eqn:E2; [| discriminate].
  intros _.
  destruct (digits12Then_inv _ _ _ E) as (A & HA & ->).
  destruct (digits12Then_inv _ _ _ E2) as (B & HB & ->).
  destruct (isD12_chars A HA) as [HAd _].
  destruct (isD12_chars B HB) as [HBd _].
  destruct (parseInt_D12 A HA) as (a & Ha & Hpa).
  destruct (parseInt_D12 B HB) as (b & Hb & Hpb).
  exists a, b. split; [exact Ha |]. split; [exact Hb |].
  rewrite (splitOn_prefix "/" A) by (apply digits_noSep; [reflexivity | exact HAd]).
  rewrite (splitOn_prefix "/" B) by (apply digits_noSep; [reflexivity | exact HBd]).
  unfold partsLabel. cbn [lookup list_lookup default from_option id].
  rewrite Hpa, Hpb.
  reflexivity.
Qed.

(** The four kinds of result. *)
Lemma label_cases (s : string) :
  (s = "" /\ label s = "") \/
  (exists a n, 0 <= a <= 99 /\ label s = show (ofZ a) +:+ "/" +:+ show n) \/
  (shortMd (trim s) = true /\ label s = trim s) \/
  (noPattern (trim s) = true /\ hostDate (trim s) = None /\ label s = trim s).
Proof.
  unfold formatDateLabel. cbn [truthy toStr].
  destruct (String.eqb_spec s "") as [-> | Hne]; cbn [negb]; [left; split; reflexivity |].
  right. set (t := trim s). unfold noPattern.
  destruct (fiveDigits t) eqn:F.
  { left. destruct (serial_label t F) as (k & y & m & d & _ & _ & _ & Hm & _ & ->).
    exists m, (ofZ d). split; [lia | reflexivity]. }
  destruct (ymdPrefix t) eqn:Y.
  { left. destruct (ymd_label t Y) as (a & n & Ha & ->).
    exists a, n. split; [exact Ha | reflexivity]. }
  destruct (mdyPrefix2 t) eqn:M.
  { left. destruct (mdy_label t M) as (a & b & Ha & _ & ->).
    exists a, (ofZ b). split; [exact Ha | reflexivity]. }
  destruct (shortMd t) eqn:Sh.
  { right. left. split; reflexivity. }
  destruct (hostDate t) as [[m d] |] eqn:H.
  { left. destruct (hostDate_range t m d H) as [Hm Hd].
    exists (m + 1), (ofZ d). split; [lia | reflexivity]. }
  right. right. repeat split; reflexivity.
Qed.

Lemma label_idempotent (s : string) : label (label s) = label s.
Proof.
  destruct (label_cases s)
    as [[-> ->] | [(a & n & Ha & ->) | [[Sh ->] | (Hn & Hh & ->)]]].
  - reflexivity.
  - apply numbers_label_fixed. exact Ha.
  - apply short_label_fixed. exact Sh.
  - unfold noPattern in Hn. rewrite !andb_true_iff, !negb_true_iff in Hn.
    destruct Hn as [[[F Y] M] Sh].
    unfold formatDateLabel. cbn [truthy toStr].
    destruct (String.eqb_spec (trim s) "") as [E | _]; cbn [negb];
      [symmetry; exact E |].
    rewrite trim_idem, F, Y, M, Sh, Hh. reflexivity.
Qed.


End Host.


(** Without the assumption on the date parser the code does not repeat
    itself: on a host that read the first of January from the text
    3/789, the label of 2024-3-789 would be 3/789 and the label of that
    1/1. *)
Remark idempotence_rests_on_the_host :
  let hostDate s := if String.eqb s "3/789" then Some (0, 1) else None in
  let label s := formatDateLabel (fun _ => "0") hostDate (Some (JStr s)) in
  label "2024-3-789" = "3/789" /\ label (label "2024-3-789") = "1/1".
Proof. split; vm_compute; reflexivity. Qed.


End MarketFacts.
